(** * The request execution engine of the rest client (package rest)

    A shallow embedding of [requestbuilder.go] ([RequestBuilder.DoRequest],
    [doRequest], [marshalReqBody], [setParams], [setTTL], ...) and of
    [concurrent.go] ([Concurrent], [FutureResponse]).

    Go pointers to [Response] objects are addresses into an explicit heap,
    so that the Response handed to a caller and the Response kept by the
    resource cache are the same object, as in the source. The library
    functions and collaborators the engine calls (the transport, the clock,
    the marshallers, the retry limiter) are fields of an environment
    record; the retry strategy and the circuit breaker are fields of the
    builder. The resource cache, whose source is not at hand, follows its
    description. Every call that leaves the engine is recorded in a trace
    of events, and the loop of attempts is bounded by fuel. *)

From Stdlib Require Import Ascii String ZArith.
From stdpp Require Import base numbers option list strings gmap pretty.

Local Open Scope string_scope.
Local Open Scope Z_scope.

(** ** Plain data *)

(** A Go [error], identified by its message. *)
Definition error := string.

(** A [[]byte]. *)
Definition bytes := list ascii.

(** [time.Time] and [time.Duration], both in nanoseconds. *)
Definition Time := Z.
Definition Duration := Z.

Definition Second : Duration := 1000000000.
Definition maxInt64 : Z := 9223372036854775807.

(** Two's complement wrap-around of an [int64] product or sum. *)
Definition wrap64 (z : Z) : Z := (z + 2 ^ 63) `mod` 2 ^ 64 - 2 ^ 63.

(** ** http.Header

    [map[string][]string]; [Get], [Set] and [Add] canonicalise the key with
    [textproto.CanonicalMIMEHeaderKey], which is passed as [canon]. A nil
    map and an empty map behave alike in every use the engine makes of one
    (range, len, delete, Get), so both are the empty map here. *)
Abbreviation Header := (gmap string (list string)).

Section header.
Variable canon : string → string.

Definition header_get (h : Header) (k : string) : string :=
  match h !! canon k with
  | Some (v :: _) => v
  | _ => ""
  end.

Definition header_set (h : Header) (k v : string) : Header :=
  <[canon k := [v]]> h.

Definition header_add (h : Header) (k v : string) : Header :=
  <[canon k := (default [] (h !! canon k) ++ [v])%list]> h.
End header.

(** ** The pattern [(?:max-age|s-maxage)=(\d+)] *)

Definition is_digit (c : ascii) : bool :=
  let n := nat_of_ascii c in (48 <=? n)%nat && (n <=? 57)%nat.

Fixpoint strip_prefix (p s : string) : option string :=
  match p, s with
  | EmptyString, _ => Some s
  | String a p', String b s' => if Ascii.eqb a b then strip_prefix p' s' else None
  | String _ _, EmptyString => None
  end.

(** The longest run of digits at the head of [s] (the greedy [\d+]). *)
Fixpoint take_digits (s : string) : string :=
  match s with
  | String c s' => if is_digit c then String c (take_digits s') else EmptyString
  | EmptyString => EmptyString
  end.

Definition digits1 (s : string) : option string :=
  match take_digits s with
  | EmptyString => None
  | d => Some d
  end.

(** A match of the pattern anchored at the head of [s]; the result is the
    capture group. The two alternatives start with different letters, so
    trying them in order is the leftmost-first choice. *)
Definition maxAge_match_here (s : string) : option string :=
  match strip_prefix "max-age=" s with
  | Some r => digits1 r
  | None =>
      match strip_prefix "s-maxage=" s with
      | Some r => digits1 r
      | None => None
      end
  end.

(** [maxAge.FindStringSubmatch(s)]: [None] is the nil slice (no match); on
    [Some d] the slice has length 2 and [d] is its element 1. *)
Fixpoint maxAge_FindStringSubmatch (s : string) : option string :=
  match maxAge_match_here s with
  | Some d => Some d
  | None =>
      match s with
      | EmptyString => None
      | String _ s' => maxAge_FindStringSubmatch s'
      end
  end.

(** [strconv.Atoi] on a run of decimal digits (its only caller passes the
    [\d+] capture): the value, or an error when it exceeds the [int] range. *)
Fixpoint digits_value (acc : Z) (s : string) : Z :=
  match s with
  | EmptyString => acc
  | String c s' => digits_value (acc * 10 + (Z.of_nat (nat_of_ascii c) - 48)) s'
  end.

Fixpoint all_digits (s : string) : bool :=
  match s with
  | EmptyString => true
  | String c s' => is_digit c && all_digits s'
  end.

Definition Atoi (s : string) : option Z :=
  match s with
  | EmptyString => None
  | _ =>
      if all_digits s
      then (let v := digits_value 0 s in if v <=? maxInt64 then Some v else None)
      else None
  end.

(** ** Responses *)

(** [*http.Response] after the transport returned it: [Body] and [BodyErr]
    are what [ioutil.ReadAll(httpResp.Body)] yields. *)
Record HttpResponse := mkHttpResponse {
  StatusCode : Z;
  RespHeader : Header;
  Body : bytes;
  BodyErr : option error;
}.

(** [Response]: the embedded [*http.Response], the error field, the
    decompressed body and the cache metadata. *)
Record Response := mkResponse {
  Resp : option HttpResponse;
  Err : option error;
  byteBody : bytes;
  ttl : option Time;
  lastModified : option Time;
  etag : string;
  revalidate : bool;
  cacheHit : bool;
}.

(** [new(Response)]. *)
Definition zeroResponse : Response :=
  mkResponse None None [] None None "" false false.

Definition set_Resp (h : HttpResponse) (r : Response) : Response :=
  mkResponse (Some h) (Err r) (byteBody r) (ttl r) (lastModified r) (etag r)
    (revalidate r) (cacheHit r).
Definition set_Err (e : error) (r : Response) : Response :=
  mkResponse (Resp r) (Some e) (byteBody r) (ttl r) (lastModified r) (etag r)
    (revalidate r) (cacheHit r).
Definition set_byteBody (b : bytes) (r : Response) : Response :=
  mkResponse (Resp r) (Err r) b (ttl r) (lastModified r) (etag r)
    (revalidate r) (cacheHit r).
Definition set_ttl (t : Time) (r : Response) : Response :=
  mkResponse (Resp r) (Err r) (byteBody r) (Some t) (lastModified r) (etag r)
    (revalidate r) (cacheHit r).
Definition set_lastModified (t : Time) (r : Response) : Response :=
  mkResponse (Resp r) (Err r) (byteBody r) (ttl r) (Some t) (etag r)
    (revalidate r) (cacheHit r).
Definition set_etag (e : string) (r : Response) : Response :=
  mkResponse (Resp r) (Err r) (byteBody r) (ttl r) (lastModified r) e
    (revalidate r) (cacheHit r).
Definition set_revalidate (b : bool) (r : Response) : Response :=
  mkResponse (Resp r) (Err r) (byteBody r) (ttl r) (lastModified r) (etag r)
    b (cacheHit r).
Definition set_cacheHit (b : bool) (r : Response) : Response :=
  mkResponse (Resp r) (Err r) (byteBody r) (ttl r) (lastModified r) (etag r)
    (revalidate r) b.

(** [result.StatusCode] and [resp.Header] go through the embedded pointer,
    which [doRequest] has set before it reads either. *)
Definition resp_StatusCode (r : Response) : Z :=
  match Resp r with Some h => StatusCode h | None => 0 end.
Definition resp_Header (r : Response) : Header :=
  match Resp r with Some h => RespHeader h | None => ∅ end.

(** ** Requests, request bodies and options *)

(** [*http.Request]: what the transport and the retry strategy see. *)
Record Request := mkRequest {
  Method : string;
  URL : string;
  ReqBody : bytes;
  ReqHeader : Header;
}.

Definition set_ReqHeader (h : Header) (r : Request) : Request :=
  mkRequest (Method r) (URL r) (ReqBody r) h.

(** A non-nil [interface{}] request body: a [[]byte], or any other value
    (which only the marshallers look into). The nil interface is [None]. *)
Inductive GoValue :=
| VBytes (b : bytes)
| VOther (descr : string).

Inductive ContentTypeKind := JSON | XML | BYTES | OtherContentType.

(** [reqOptions], through its two accessors [Headers()] and [Context()];
    of the context the engine reads only the forwarded tracing headers. *)
Record reqOptions := mkReqOptions {
  optHeaders : Header;
  optForwarded : Header;
}.

(** An [Option] is a function that updates the [reqOptions] it is given. *)
Definition Option := reqOptions → reqOptions.

Definition apply_opts (opts : list Option) : reqOptions :=
  foldl (λ o f, f o) (mkReqOptions ∅ ∅) opts.

(** ** Events: every call that leaves the engine *)

Inductive Event :=
| EvAllow                                          (* circuitBreaker.Allow() *)
| EvAfter (cb : nat) (success : bool)              (* the callback Allow returned *)
| EvCacheGet (url : string)                        (* resourceCache.get *)
| EvCacheSetNX (url : string) (p : nat)            (* resourceCache.setNX *)
| EvClientDo (req : Request)                       (* rb.getClient().Do(request) *)
| EvApiCallMetric (target label : string) (isRetry : bool)
| EvSimpleMetric (name : string) (tags : list (string * string))
| EvCustomEvent (pool : string)                    (* buildMetricData *)
| EvDrainBody
| EvSleep (d : Duration)
| EvLimiterAction (admitted : bool)                (* retryLimiter.Action *)
| EvStore (cell : nat) (p : option nat).           (* fr.p.Store(res) *)

Definition is_network (e : Event) : bool :=
  match e with EvClientDo _ => true | _ => false end.
Definition is_cache_access (e : Event) : bool :=
  match e with EvCacheGet _ | EvCacheSetNX _ _ => true | _ => false end.
Definition is_retry_step (e : Event) : bool :=
  match e with
  | EvDrainBody | EvSleep _ | EvLimiterAction _ | EvApiCallMetric _ _ _ => true
  | _ => false
  end.
Definition is_after (e : Event) : bool :=
  match e with EvAfter _ _ => true | _ => false end.

(** ** Collaborators *)

(** What [client.Do] returns: a response, or an error (with which a
    response may still come, as for a refused redirect). *)
Inductive DoResult :=
| DoOk (h : HttpResponse)
| DoErr (h : option HttpResponse) (e : error).

Definition do_resp (r : DoResult) : option HttpResponse :=
  match r with DoOk h => Some h | DoErr h _ => h end.
Definition do_err (r : DoResult) : option error :=
  match r with DoOk _ => None | DoErr _ e => Some e end.

(** [retry.RetryResponse] and [retry.RetryStrategy]. *)
Record RetryResponse := mkRetryResponse {
  Retry : bool;
  Delay : Duration;
}.

Record RetryStrategyT := mkRetryStrategy {
  ShouldRetry : Request → option HttpResponse → option error → Z → RetryResponse;
}.

(** The circuit breaker, through [Allow() (func(bool), error)]: its answer
    depends on what happened before. The callback is named by a number. *)
Record CircuitBreakerT := mkCircuitBreaker {
  Allow : list Event → option nat * option error;
}.

Record MetricsReportConfig := mkMetricsConfig {
  TargetId : string;
  DisableApiCallMetrics : bool;
}.

Inductive ProxySetting := ProxyURL (u : string) | ProxyFromEnvironment.

Inductive RoundTripper :=
| HttpTransport (maxIdleConnsPerHost : Z) (proxy : ProxySetting)
    (dialTimeout responseHeaderTimeout : Duration)
| OtherRoundTripper (descr : string).

(** [CustomPool], with its [once]. *)
Record CustomPoolT := mkCustomPool {
  MaxIdleConnsPerHost : Z;
  Proxy : string;
  Transport : option RoundTripper;
  poolOnce : bool;
}.

(** [http.Client], as [getClient] builds it. *)
Record HttpClient := mkHttpClient {
  clientTransport : RoundTripper;
  clientTimeout : Duration;
  avoidsRedirect : bool;
}.

(** Library functions and process-wide settings the engine consults. *)
Record Env := mkEnv {
  canon : string → string;             (* textproto.CanonicalMIMEHeaderKey *)
  toLower : string → string;           (* strings.ToLower *)
  now : list Event → Time;             (* time.Now() *)
  parseHTTPDate : string → option Time;  (* time.Parse(httpDateFormat, _) *)
  formatHTTPDate : Time → string;      (* t.Format(httpDateFormat) *)
  jsonMarshal : GoValue → bytes + error;
  xmlMarshal : GoValue → bytes + error;
  mockUpEnv : bool;
  mockRewrite : string → string + error; (* url.Parse, then scheme and host of the mock server *)
  urlParses : string → bool;
  newRequestErr : string → string → option error;  (* http.NewRequest *)
  basicAuthValue : string → string → string;
  millisString : Duration → string;    (* strconv.Itoa(int(d.Seconds() * 1000)) *)
  frameFile : nat → string;            (* path.Base(getFrame(n).File) *)
  clientDo : list Event → Request → DoResult;
  gzipNewReader : bytes → option error;
  gzipReadAll : bytes → bytes + error;
  limiterAdmits : list Event → bool;   (* whether retryLimiter.Action runs its action *)
  DefaultTimeout : Duration;
  DefaultConnectTimeout : Duration;
  DefaultMaxIdleConnsPerHost : Z;
}.

(** ** RequestBuilder *)

Record RequestBuilder := mkRequestBuilder {
  BaseURL : string;
  Headers : Header;
  ContentType : ContentTypeKind;
  EnableCache : bool;
  UncompressResponse : bool;
  FollowRedirect : bool;
  DisableTimeout : bool;
  Timeout : Duration;
  ConnectTimeout : Duration;
  BasicAuth : option (string * string);
  UserAgent : string;
  poolName : string;
  CustomPool : option CustomPoolT;
  MetricsConfig : MetricsReportConfig;
  RetryStrategy : option RetryStrategyT;
  circuitBreaker : option CircuitBreakerT;
  Client : option HttpClient;
  clientMtxOnce : bool;                 (* whether the once has fired *)
}.

Definition set_Headers (h : Header) (rb : RequestBuilder) : RequestBuilder :=
  mkRequestBuilder (BaseURL rb) h (ContentType rb) (EnableCache rb)
    (UncompressResponse rb) (FollowRedirect rb) (DisableTimeout rb) (Timeout rb)
    (ConnectTimeout rb) (BasicAuth rb) (UserAgent rb) (poolName rb) (CustomPool rb)
    (MetricsConfig rb) (RetryStrategy rb) (circuitBreaker rb) (Client rb) (clientMtxOnce rb).
Definition set_poolName (n : string) (rb : RequestBuilder) : RequestBuilder :=
  mkRequestBuilder (BaseURL rb) (Headers rb) (ContentType rb) (EnableCache rb)
    (UncompressResponse rb) (FollowRedirect rb) (DisableTimeout rb) (Timeout rb)
    (ConnectTimeout rb) (BasicAuth rb) (UserAgent rb) n (CustomPool rb)
    (MetricsConfig rb) (RetryStrategy rb) (circuitBreaker rb) (Client rb) (clientMtxOnce rb).
Definition set_CustomPool (cp : option CustomPoolT) (rb : RequestBuilder) : RequestBuilder :=
  mkRequestBuilder (BaseURL rb) (Headers rb) (ContentType rb) (EnableCache rb)
    (UncompressResponse rb) (FollowRedirect rb) (DisableTimeout rb) (Timeout rb)
    (ConnectTimeout rb) (BasicAuth rb) (UserAgent rb) (poolName rb) cp
    (MetricsConfig rb) (RetryStrategy rb) (circuitBreaker rb) (Client rb) (clientMtxOnce rb).
Definition set_Client (c : HttpClient) (rb : RequestBuilder) : RequestBuilder :=
  mkRequestBuilder (BaseURL rb) (Headers rb) (ContentType rb) (EnableCache rb)
    (UncompressResponse rb) (FollowRedirect rb) (DisableTimeout rb) (Timeout rb)
    (ConnectTimeout rb) (BasicAuth rb) (UserAgent rb) (poolName rb) (CustomPool rb)
    (MetricsConfig rb) (RetryStrategy rb) (circuitBreaker rb) (Some c) true.

(** ** The world: heap of Responses, resource cache, pool registry, trace *)

Record World := mkWorld {
  heap : gmap nat Response;
  resourceCache : gmap string nat;
  poolMap : gset string;
  futureCells : gmap nat (option (option nat));
  trace : list Event;
}.

Definition emit (e : Event) (w : World) : World :=
  mkWorld (heap w) (resourceCache w) (poolMap w) (futureCells w) (trace w ++ [e])%list.
Definition set_heap (h : gmap nat Response) (w : World) : World :=
  mkWorld h (resourceCache w) (poolMap w) (futureCells w) (trace w).
Definition set_resourceCache (c : gmap string nat) (w : World) : World :=
  mkWorld (heap w) c (poolMap w) (futureCells w) (trace w).
Definition set_poolMap (s : gset string) (w : World) : World :=
  mkWorld (heap w) (resourceCache w) s (futureCells w) (trace w).

(** Writing through a [*Response]. *)
Definition store (p : nat) (r : Response) (w : World) : World :=
  set_heap (<[p := r]> (heap w)) w.

(** A fresh address for [new(Response)] or [&Response{...}]. *)
Definition new_addr (w : World) : nat := fresh (dom (heap w)).

(** ** Constants of the package *)

Definition readVerbs : list string := ["GET"; "HEAD"; "OPTIONS"].
Definition contentVerbs : list string := ["POST"; "PUT"; "PATCH"].
Definition RETRY_HEADER : string := "X-Retry".
Definition restClientPoolName : string := "X-Rest-Pool-Name".
Definition socketTimeoutConfig : string := "X-Socket-Timeout".
Definition StatusInternalServerError : Z := 500.
Definition StatusNotModified : Z := 304.

Definition matchVerbs (s : string) (sarray : list string) : bool :=
  existsb (λ v, String.eqb v s) sarray.

(** ** Helpers that need no state *)

Section engine.
Variable env : Env.

(** [setTTL]: the TTL from [Cache-Control], else from [Expires]. [tr] is
    the history at the call, which fixes [time.Now()]. *)
Definition setTTL (tr : list Event) (resp : Response) : bool * Response :=
  let now_ := now env tr in
  match maxAge_FindStringSubmatch (header_get (canon env) (resp_Header resp) "Cache-Control") with
  | Some d =>
      match Atoi d with
      | None => (false, resp)
      | Some n =>
          if 0 <? n
          then (true, set_ttl (now_ + wrap64 (n * Second)) resp)
          else (false, resp)
      end
  | None =>
      match parseHTTPDate env (header_get (canon env) (resp_Header resp) "Expires") with
      | None => (false, resp)
      | Some expires =>
          if 0 <? expires - now_
          then (true, set_ttl expires resp)
          else (false, resp)
      end
  end.

Definition setLastModified (resp : Response) : bool * Response :=
  match parseHTTPDate env (header_get (canon env) (resp_Header resp) "Last-Modified") with
  | None => (false, resp)
  | Some t => (true, set_lastModified t resp)
  end.

Definition setETag (resp : Response) : bool * Response :=
  let e := header_get (canon env) (resp_Header resp) "ETag" in
  (negb (String.eqb e ""), set_etag e resp).

(** [marshalReqBody]. *)
Definition marshalReqBody (rb : RequestBuilder) (body : option GoValue) : bytes + error :=
  match body with
  | None => inl []
  | Some v =>
      match ContentType rb with
      | JSON => jsonMarshal env v
      | XML => xmlMarshal env v
      | BYTES =>
          match v with
          | VBytes b => inl b
          | VOther d => inr ("bytes: body is " +:+ d +:+ " not a byte slice")
          end
      | OtherContentType => inl []
      end
  end.

(** [checkMockup]: the URL to call, and the URL the cache is keyed by. *)
Definition checkMockup (reqURL : string) : (string * string) + error :=
  let cacheURL := reqURL in
  if mockUpEnv env
  then match mockRewrite env reqURL with
       | inl u => inl (u, cacheURL)
       | inr e => inr e
       end
  else inl (reqURL, cacheURL).

Definition getRequestTimeout (rb : RequestBuilder) : Duration :=
  if DisableTimeout rb then 0
  else if 0 <? Timeout rb then Timeout rb
  else DefaultTimeout env.

Definition getConnectionTimeout (rb : RequestBuilder) : Duration :=
  if DisableTimeout rb then 0
  else if 0 <? ConnectTimeout rb then ConnectTimeout rb
  else DefaultConnectTimeout env.

Definition getMaxIdleConnsPerHost (rb : RequestBuilder) : Z :=
  match CustomPool rb with
  | Some cp => MaxIdleConnsPerHost cp
  | None => DefaultMaxIdleConnsPerHost env
  end.

Definition getProxy (rb : RequestBuilder) : ProxySetting :=
  match CustomPool rb with
  | Some cp =>
      if negb (String.eqb (Proxy cp) "") && urlParses env (Proxy cp)
      then ProxyURL (Proxy cp)
      else ProxyFromEnvironment
  | None => ProxyFromEnvironment
  end.

Definition makeTransport (rb : RequestBuilder) : RoundTripper :=
  HttpTransport (getMaxIdleConnsPerHost rb) (getProxy rb)
    (getConnectionTimeout rb) (getRequestTimeout rb).

(** [getTransport]: the pool's transport is built, or its timeouts
    overwritten, the first time only. *)
Definition getTransport (rb : RequestBuilder) : option RoundTripper * RequestBuilder :=
  match CustomPool rb with
  | None => (Some (makeTransport rb), rb)
  | Some cp =>
      if poolOnce cp then (Transport cp, rb)
      else
        let t :=
          match Transport cp with
          | None => makeTransport rb
          | Some (HttpTransport m p _ _) =>
              HttpTransport m p (getConnectionTimeout rb) (getRequestTimeout rb)
          | Some (OtherRoundTripper d) => OtherRoundTripper d
          end in
        (Some t,
         set_CustomPool
           (Some (mkCustomPool (MaxIdleConnsPerHost cp) (Proxy cp) (Some t) true)) rb)
  end.

(** [getClient]: builds [rb.Client] the first time only. *)
Definition getClient (rb : RequestBuilder) : RequestBuilder :=
  if clientMtxOnce rb then rb
  else
    let '(t, rb1) := getTransport rb in
    set_Client
      (mkHttpClient (default (OtherRoundTripper "nil") t)
         (wrap64 (getConnectionTimeout rb1 + getRequestTimeout rb1))
         (negb (FollowRedirect rb1)))
      rb1.

(** [strings.TrimSuffix]. *)
Fixpoint TrimSuffix (s suffix : string) : string :=
  match s with
  | EmptyString => EmptyString
  | String c s' =>
      if String.eqb s suffix then EmptyString else String c (TrimSuffix s' suffix)
  end.

Definition getCallerFile : string :=
  if String.eqb (frameFile env 4) "rest.go"
  then "pool_" +:+ TrimSuffix (frameFile env 5) ".go"
  else if String.eqb (frameFile env 3) "requestbuilder.go"
  then "pool_" +:+ TrimSuffix (frameFile env 4) ".go"
  else if String.eqb (frameFile env 3) "concurrent.go"
  then "pool_concurrent_unknown"
  else "pool_unknown".

(** [sendRestMetrics]: the configuration event is sent for a pool name
    the first time that name is seen. *)
Definition sendRestMetrics (rb : RequestBuilder) (w : World) : World :=
  if decide (poolName rb ∈ poolMap w) then w
  else emit (EvCustomEvent (poolName rb)) (set_poolMap ({[poolName rb]} ∪ poolMap w) w).

Definition req_set (k v : string) (r : Request) : Request :=
  set_ReqHeader (header_set (canon env) (ReqHeader r) k v) r.
Definition req_add (k v : string) (r : Request) : Request :=
  set_ReqHeader (header_add (canon env) (ReqHeader r) k v) r.
Definition req_get (k : string) (r : Request) : string :=
  header_get (canon env) (ReqHeader r) k.

(** [setParams]. The builder's headers are copied in the order the map
    yields them. *)
Definition setParams (rb : RequestBuilder) (req : Request)
    (cacheResp : option Response) (cacheURL : string) : Request :=
  let req :=
    map_fold (λ key values r, foldl (λ r value, req_add key value r) r values)
      req (Headers rb) in
  let req := req_set "Connection" "keep-alive" req in
  let req := req_set "Cache-Control" "no-cache" req in
  let req := if mockUpEnv env then req_set "X-Original-URL" cacheURL req else req in
  let req :=
    match BasicAuth rb with
    | Some (u, p) => req_set "Authorization" (basicAuthValue env u p) req
    | None => req
    end in
  let req :=
    req_set "User-Agent"
      (if String.eqb (UserAgent rb) "" then "github.com/go-loco/restful" else UserAgent rb)
      req in
  let cType :=
    match ContentType rb with
    | JSON => "json"
    | XML => "xml"
    | _ => ""
    end in
  let req :=
    if String.eqb cType "" then req
    else
      let req := req_set "Accept" ("application/" +:+ cType) req in
      if matchVerbs (Method req) contentVerbs
      then req_set "Content-Type" ("application/" +:+ cType) req
      else req in
  match cacheResp with
  | Some c =>
      if revalidate c then
        if negb (String.eqb (etag c) "") then req_set "If-None-Match" (etag c) req
        else match lastModified c with
             | Some t => req_set "If-Modified-Since" (formatHTTPDate env t) req
             | None => req
             end
      else req
  | None => req
  end.

(** ** The resource cache *)

(** Whether the entry's TTL has passed at time [t]. *)
Definition expired (t : Time) (r : Response) : bool :=
  match ttl r with
  | Some e => e <=? t
  | None => false
  end.

(** Modelled from the spec: [resourceCache.get] (cache.go is not among the
    sources). The cache maps a URL to at most one Response; expiry is
    checked when the entry is read, and an expired entry is marked as
    needing revalidation, so that the engine goes to the network for it. *)
Definition resourceCache_get (key : string) (w : World) : option nat * World :=
  match resourceCache w !! key with
  | None => (None, w)
  | Some p =>
      match heap w !! p with
      | None => (None, w)
      | Some r =>
          if expired (now env (trace w)) r
          then (Some p, store p (set_revalidate true r) w)
          else (Some p, w)
      end
  end.

(** An entry is stale when it is marked as needing revalidation. *)
Definition stale (w : World) (p : nat) : bool :=
  match heap w !! p with
  | Some r => revalidate r
  | None => true
  end.

(** Modelled from the spec: [resourceCache.setNX] (cache.go is not among
    the sources). The Response is inserted when the URL has no entry, and
    replaces the entry when that entry is stale; a live entry is kept. *)
Definition resourceCache_setNX (key : string) (value : nat) (w : World) : World :=
  match resourceCache w !! key with
  | None => set_resourceCache (<[key := value]> (resourceCache w)) w
  | Some q =>
      if stale w q
      then set_resourceCache (<[key := value]> (resourceCache w)) w
      else w
  end.

(** ** One request *)

Inductive Outcome :=
| Returned (p : option nat)      (* the pointer returned; [None] is nil *)
| Panicked.

Inductive LoopExit :=
| NewRequestFailed (e : error)
| Attempted (r : DoResult).

(** Copying the headers of the options into the request. *)
Definition copyOptHeaders (opt : reqOptions) (req : Request) : Request :=
  map_fold
    (λ k _ r, req_add k (header_get (canon env) (optHeaders opt) k) r)
    req (optHeaders opt).

(** Copying the forwarded tracing headers: a header the caller has set to
    another value is kept, and a metric records the difference. *)
Definition copyTraceHeaders (opt : reqOptions) (req : Request) (w : World)
    : Request * World :=
  map_fold
    (λ header _ (acc : Request * World),
       let '(r, w) := acc in
       let value := header_get (canon env) (optForwarded opt) header in
       let v := req_get header r in
       if negb (String.eqb v "") && negb (String.eqb v value)
       then (r, emit (EvSimpleMetric "platform.traffic.forwarded_header.diff"
                        [("stack", "go-meli-toolkit"); ("header", toLower env header)]) w)
       else (req_set header value r, w))
    (req, w) (optForwarded opt).

(** [retryFunc]: drain the body of a response that came without error,
    then sleep. (It also counts the retry, which [attempts] does, and sets
    [RETRY_HEADER] on the request of the attempt that is over; the next
    attempt builds its request anew.) *)
Definition retryFunc (r : DoResult) (rr : RetryResponse) (w : World) : World :=
  let w := match r with DoOk _ => emit EvDrainBody w | DoErr _ _ => w end in
  emit (EvSleep (Delay rr)) w.

Definition recordApiCall (rb : RequestBuilder) (r : DoResult) (retries : Z)
    (w : World) : World :=
  if DisableApiCallMetrics (MetricsConfig rb) then w
  else
    emit (EvApiCallMetric (TargetId (MetricsConfig rb))
            (match r with DoErr _ _ => "error" | DoOk h => pretty (StatusCode h) end)
            (0 <? retries)) w.

Definition recordRetryBreak (rb : RequestBuilder) (w : World) : World :=
  if DisableApiCallMetrics (MetricsConfig rb) then w
  else emit (EvSimpleMetric "go.api_call.retry_break"
               [("target_id", TargetId (MetricsConfig rb))]) w.

Section attempt_loop.
Variables (verb reqURL : string) (body : bytes) (cacheResp : option nat)
  (cacheURL : string) (opt : reqOptions).

(** The request of one attempt, up to the call of the transport. *)
Definition prepare (rb : RequestBuilder) (w : World)
    : Request * RequestBuilder * World :=
  let request := mkRequest verb reqURL body ∅ in
  let request := setParams rb request (cacheResp ≫= λ p, heap w !! p) cacheURL in
  let '(rb, w) :=
    if String.eqb (poolName rb) ""
    then (let rb' := set_poolName getCallerFile rb in (rb', sendRestMetrics rb' w))
    else (rb, w) in
  let request := req_set socketTimeoutConfig (millisString env (getRequestTimeout rb)) request in
  let request := req_set restClientPoolName (poolName rb) request in
  let request := copyOptHeaders opt request in
  let '(request, w) := copyTraceHeaders opt request w in
  (request, getClient rb, w).

(** The loop [for !end { ... }] of [doRequest]; [fuel] bounds the number
    of attempts. *)
Fixpoint attempts (fuel : nat) (retries : Z) (rb : RequestBuilder) (w : World)
    : option (LoopExit * RequestBuilder * World) :=
  match fuel with
  | O => None
  | S fuel' =>
      match newRequestErr env verb reqURL with
      | Some e => Some (NewRequestFailed e, rb, w)
      | None =>
          let '(request, rb, w) := prepare rb w in
          let r := clientDo env (trace w) request in
          let w := emit (EvClientDo request) w in
          let w := recordApiCall rb r retries w in
          match RetryStrategy rb with
          | None => Some (Attempted r, rb, w)
          | Some strategy =>
              let retryResp := ShouldRetry strategy request (do_resp r) (do_err r) retries in
              if Retry retryResp then
                match circuitBreaker rb with
                | Some _ =>
                    attempts fuel' (retries + 1) rb (retryFunc r retryResp w)
                | None =>
                    if limiterAdmits env (trace w)
                    then attempts fuel' (retries + 1) rb
                           (retryFunc r retryResp (emit (EvLimiterAction true) w))
                    else Some (Attempted r, rb,
                               recordRetryBreak rb (emit (EvLimiterAction false) w))
                end
              else Some (Attempted r, rb, w)
          end
      end
  end.
End attempt_loop.

(** The body of the response: as read, or gunzipped. The boolean tells
    whether [gzip.NewReader] failed: its nil reader is closed by a
    deferred call when [doRequest] returns, which dereferences it. *)
Definition readBody (rb : RequestBuilder) (h : HttpResponse) (result : Response)
    : Response * bool :=
  let respBody := Body h in
  if negb (UncompressResponse rb) then (set_byteBody respBody result, false)
  else
    let respEncoding :=
      let e := header_get (canon env) (RespHeader h) "Content-Encoding" in
      if String.eqb e "" then header_get (canon env) (RespHeader h) "Content-Type" else e in
    if String.eqb respEncoding "gzip" || String.eqb respEncoding "application/x-gzip"
    then
      match respBody with
      | [] => (result, false)
      | _ =>
          match gzipNewReader env respBody with
          | Some e => (set_Err e result, true)
          | None =>
              match gzipReadAll env respBody with
              | inr e => (set_Err e result, false)
              | inl uncompressedData => (set_byteBody uncompressedData result, false)
              end
          end
      end
    else (set_byteBody respBody result, false).

(** [doRequest] after the loop. [result] is the address of the Response
    allocated on entry, which still holds [new(Response)]. *)
Definition finish (rb : RequestBuilder) (verb cacheURL : string)
    (cacheResp : option nat) (result : nat) (r : DoResult) (w : World)
    : Outcome * World :=
  match r with
  | DoErr _ responseErr =>
      (Returned (Some result), store result (set_Err responseErr zeroResponse) w)
  | DoOk httpResp =>
      match BodyErr httpResp with
      | Some e => (Returned (Some result), store result (set_Err e zeroResponse) w)
      | None =>
          if EnableCache rb && (StatusCode httpResp =? StatusNotModified)
          then (Returned cacheResp, w)
          else
            let res := set_Resp httpResp zeroResponse in
            let '(res, nilReader) := readBody rb httpResp res in
            let '(ttl_, res) := setTTL (trace w) res in
            let '(lastModified_, res) := setLastModified res in
            let '(etag_, res) := setETag res in
            let res :=
              if negb ttl_ && (lastModified_ || etag_)
              then set_revalidate true res else res in
            let w := store result res w in
            let w :=
              if EnableCache rb && matchVerbs verb readVerbs
                 && (ttl_ || lastModified_ || etag_)
              then resourceCache_setNX cacheURL result (emit (EvCacheSetNX cacheURL result) w)
              else w in
            (if nilReader then Panicked else Returned (Some result), w)
      end
  end.

(** The cache lookup that opens [doRequest]: the entry found, if any, and
    whether it is returned at once. *)
Definition cacheLookup (rb : RequestBuilder) (verb reqURL : string) (w : World)
    : option nat * bool * World :=
  if EnableCache rb && matchVerbs verb readVerbs
  then
    let '(cacheResp, w) := resourceCache_get reqURL (emit (EvCacheGet reqURL) w) in
    match cacheResp with
    | Some p =>
        match heap w !! p with
        | Some c =>
            (Some p, negb (revalidate c), store p (set_cacheHit true c) w)
        | None => (None, false, w)
        end
    | None => (None, false, w)
    end
  else (None, false, w).

(** [doRequest]. [None] is a loop that did not end within [fuel]
    attempts. *)
Definition doRequest (fuel : nat) (rb : RequestBuilder) (verb reqURL : string)
    (reqBody : option GoValue) (opt : reqOptions) (w : World)
    : option (Outcome * RequestBuilder * World) :=
  let result := new_addr w in
  let w := store result zeroResponse w in
  let reqURL := BaseURL rb +:+ reqURL in
  let '(cacheResp, fresh_hit, w) := cacheLookup rb verb reqURL w in
  if fresh_hit then Some (Returned cacheResp, rb, w)
  else
    let rb :=
      if EnableCache rb then rb
      else set_Headers (delete "If-Modified-Since" (delete "If-None-Match" (Headers rb))) rb in
    match marshalReqBody rb reqBody with
    | inr e => Some (Returned (Some result), rb, store result (set_Err e zeroResponse) w)
    | inl body =>
        match checkMockup reqURL with
        | inr e => Some (Returned (Some result), rb, store result (set_Err e zeroResponse) w)
        | inl (reqURL', cacheURL) =>
            match attempts verb reqURL' body cacheResp cacheURL opt fuel 0 rb w with
            | None => None
            | Some (NewRequestFailed e, rb, w) =>
                Some (Returned (Some result), rb, store result (set_Err e zeroResponse) w)
            | Some (Attempted r, rb, w) =>
                let '(o, w) := finish rb verb cacheURL cacheResp result r w in
                Some (o, rb, w)
            end
        end
    end.

(** [success := result.Err == nil && result.StatusCode/100 != 5], for a
    non-nil [result]; [None] when [StatusCode] is read through a nil
    embedded response. *)
Definition success_of (r : Response) : option bool :=
  match Err r with
  | Some _ => Some false
  | None =>
      match Resp r with
      | Some h => Some (negb (Z.quot (StatusCode h) 100 =? 5))
      | None => None
      end
  end.

(** The end of [DoRequest]: the breaker's callback, when there is one, is
    told how the request went. *)
Definition complete (after : option nat) (o : Outcome) (w : World) : Outcome * World :=
  match o with
  | Panicked => (Panicked, w)
  | Returned result =>
      match after with
      | None => (Returned result, w)
      | Some cb =>
          match result ≫= λ p, heap w !! p with
          | None => (Panicked, w)
          | Some r =>
              match success_of r with
              | Some success => (Returned result, emit (EvAfter cb success) w)
              | None => (Panicked, w)
              end
          end
      end
  end.

(** The Response of a denied call. *)
Definition deniedResponse (err : error) : Response :=
  mkResponse (Some (mkHttpResponse StatusInternalServerError ∅ [] None))
    (Some err) [] None None "" false false.

(** [RequestBuilder.DoRequest]. *)
Definition DoRequest (fuel : nat) (rb : RequestBuilder) (verb reqURL : string)
    (reqBody : option GoValue) (opts : list Option) (w : World)
    : option (Outcome * RequestBuilder * World) :=
  let reqOpt := apply_opts opts in
  match circuitBreaker rb with
  | Some cb =>
      let '(after, err) := Allow cb (trace w) in
      let w := emit EvAllow w in
      match err with
      | Some e =>
          let p := new_addr w in
          Some (Returned (Some p), rb, store p (deniedResponse e) w)
      | None =>
          match doRequest fuel rb verb reqURL reqBody reqOpt w with
          | None => None
          | Some (o, rb, w) => let '(o, w) := complete after o w in Some (o, rb, w)
          end
      end
  | None =>
      match doRequest fuel rb verb reqURL reqBody reqOpt w with
      | None => None
      | Some (o, rb, w) => let '(o, w) := complete None o w in Some (o, rb, w)
      end
  end.
End engine.

(** ** The fork-join batch (concurrent.go) *)







(** ** A concrete setting, for running the model *)

Module Sample.
Definition future_date : string := "Fri, 01 Jan 2027 00:00:00 GMT".

Definition server (tr : list Event) (req : Request) : DoResult :=
  if String.eqb (URL req) "http://api/notmodified"
  then DoOk (mkHttpResponse 304 ∅ [] None)
  else if String.eqb (URL req) "http://api/etag"
  then DoOk (mkHttpResponse 200 {["ETag" := ["v2"]]} ["n"%char] None)
  else if String.eqb (URL req) "http://api/down"
  then DoErr None "connection refused"
  else DoOk (mkHttpResponse 200 {["Cache-Control" := ["max-age=100"]]} ["o"%char; "k"%char] None).

Definition env : Env :=
  {| canon := id;
     toLower := id;
     now := λ _, 1000 * Second;
     parseHTTPDate := λ s, if String.eqb s future_date then Some (5000 * Second) else None;
     formatHTTPDate := λ _, future_date;
     jsonMarshal := λ _, inl ["{"%char; "}"%char];
     xmlMarshal := λ _, inr "xml: unsupported type";
     mockUpEnv := false;
     mockRewrite := λ u, inl u;
     urlParses := λ _, true;
     newRequestErr := λ _ _, None;
     basicAuthValue := λ u p, "Basic " +:+ u +:+ ":" +:+ p;
     millisString := λ d, pretty (d `div` 1000000);
     frameFile := λ _, "main.go";
     clientDo := server;
     gzipNewReader := λ _, Some "gzip: invalid header";
     gzipReadAll := λ b, inl b;
     limiterAdmits := λ _, false;
     DefaultTimeout := 500000000;
     DefaultConnectTimeout := 1500000000;
     DefaultMaxIdleConnsPerHost := 2 |}.

Definition w0 : World := mkWorld ∅ ∅ ∅ ∅ [].

(** A builder with caching on and nothing else configured. *)
Definition rb0 : RequestBuilder :=
  mkRequestBuilder "http://api" ∅ JSON true false false false 0 0 None "" "pool"
    None (mkMetricsConfig "target" false) None None None false.

Definition with_breaker (cb : CircuitBreakerT) (rb : RequestBuilder) : RequestBuilder :=
  mkRequestBuilder (BaseURL rb) (Headers rb) (ContentType rb) (EnableCache rb)
    (UncompressResponse rb) (FollowRedirect rb) (DisableTimeout rb) (Timeout rb)
    (ConnectTimeout rb) (BasicAuth rb) (UserAgent rb) (poolName rb) (CustomPool rb)
    (MetricsConfig rb) (RetryStrategy rb) (Some cb) (Client rb) (clientMtxOnce rb).

Definition open_breaker : CircuitBreakerT :=
  mkCircuitBreaker (λ _, (None, Some "circuit breaker is open")).
Definition closed_breaker : CircuitBreakerT :=
  mkCircuitBreaker (λ _, (Some 7%nat, None)).

(** Retry while [attempt < 2], with a fixed delay. *)
Definition simple_strategy : RetryStrategyT :=
  mkRetryStrategy (λ _ _ e n, mkRetryResponse (bool_decide (is_Some e) && (n <? 2)) 5).

(** The same setting with a server that answers 304 to everything. *)
Definition not_modified : HttpResponse := mkHttpResponse 304 ∅ [] None.

Definition with_server (srv : list Event → Request → DoResult) (e : Env) : Env :=
  mkEnv (canon e) (toLower e) (now e) (parseHTTPDate e) (formatHTTPDate e)
    (jsonMarshal e) (xmlMarshal e) (mockUpEnv e) (mockRewrite e) (urlParses e)
    (newRequestErr e) (basicAuthValue e) (millisString e) (frameFile e) srv
    (gzipNewReader e) (gzipReadAll e) (limiterAdmits e) (DefaultTimeout e)
    (DefaultConnectTimeout e) (DefaultMaxIdleConnsPerHost e).

Definition env304 : Env := with_server (λ _ _, DoOk not_modified) env.

(** A world whose cache holds, for [http://api/doc], an entry with an
    ETag and no TTL, which therefore needs revalidation. *)
Definition entry : Response :=
  mkResponse (Some (mkHttpResponse 200 {["ETag" := ["v1"]]} ["d"%char] None)) None
    ["d"%char] None None "v1" true false.

Definition w_stale : World :=
  mkWorld {[5%nat := entry]} {["http://api/doc" := 5%nat]} ∅ ∅ [].

(** A builder with caching off, an [If-None-Match] header of its own and
    no pool name. *)
Definition rb_plain : RequestBuilder :=
  mkRequestBuilder "http://api" {["If-None-Match" := ["v0"]]} JSON false false false
    false 0 0 None "" "" None (mkMetricsConfig "target" false) None None None false.

(** A builder with a retry strategy, no breaker, and metrics off. *)
Definition rb_quiet : RequestBuilder :=
  mkRequestBuilder "http://api" ∅ JSON false false false false 0 0 None "" "pool"
    None (mkMetricsConfig "target" true) (Some simple_strategy) None None false.


End Sample.

(** The outcome of a run, without the state. *)
Definition outcome_of (x : option (Outcome * RequestBuilder * World)) : option Outcome :=
  match x with
  | Some (o, _, _) => Some o
  | None => None
  end.


Definition world_of (x : option (Outcome * RequestBuilder * World)) : option World :=
  match x with
  | Some (_, _, w) => Some w
  | None => None
  end.

(** ** Vocabulary of the statements *)

(** The events of the attempt loop. *)
Definition loop_event (e : Event) : bool :=
  match e with
  | EvClientDo _ | EvApiCallMetric _ _ _ | EvSimpleMetric _ _ | EvCustomEvent _
  | EvDrainBody | EvSleep _ | EvLimiterAction _ => true
  | _ => false
  end.

(** [w'] comes from [w] by events that satisfy [P], with the heap, the
    cache and the future cells as they were. *)
Record extends (P : Event → bool) (w w' : World) : Prop := mkExtends {
  ext_heap : heap w' = heap w;
  ext_cache : resourceCache w' = resourceCache w;
  ext_cells : futureCells w' = futureCells w;
  ext_trace : ∃ evs, trace w' = (trace w ++ evs)%list ∧ forallb P evs = true;
}.

(** What the builder keeps through the attempt loop: every field but the
    pool name when it was empty, and the client and the pool's transport
    until they have been built. *)
Record kept (rb rb' : RequestBuilder) : Prop := mkKept {
  kept_BaseURL : BaseURL rb' = BaseURL rb;
  kept_Headers : Headers rb' = Headers rb;
  kept_ContentType : ContentType rb' = ContentType rb;
  kept_EnableCache : EnableCache rb' = EnableCache rb;
  kept_UncompressResponse : UncompressResponse rb' = UncompressResponse rb;
  kept_FollowRedirect : FollowRedirect rb' = FollowRedirect rb;
  kept_DisableTimeout : DisableTimeout rb' = DisableTimeout rb;
  kept_Timeout : Timeout rb' = Timeout rb;
  kept_ConnectTimeout : ConnectTimeout rb' = ConnectTimeout rb;
  kept_BasicAuth : BasicAuth rb' = BasicAuth rb;
  kept_UserAgent : UserAgent rb' = UserAgent rb;
  kept_MetricsConfig : MetricsConfig rb' = MetricsConfig rb;
  kept_RetryStrategy : RetryStrategy rb' = RetryStrategy rb;
  kept_circuitBreaker : circuitBreaker rb' = circuitBreaker rb;
  kept_poolName : poolName rb ≠ "" → poolName rb' = poolName rb;
  kept_Client :
    clientMtxOnce rb = true →
    Client rb' = Client rb ∧ CustomPool rb' = CustomPool rb ∧ clientMtxOnce rb' = true;
}.

(** The events of [w'] are those of [w] followed by events that satisfy
    [P]. *)
Definition trace_by (P : Event → bool) (w w' : World) : Prop :=
  ∃ evs, trace w' = (trace w ++ evs)%list ∧ forallb P evs = true.

(** How many events of a kind a trace holds. *)
Definition count_events (P : Event → bool) (tr : list Event) : nat :=
  length (List.filter P tr).


(** The builder after the two conditional headers were deleted from its
    header map. *)
Definition without_conditional_headers (rb : RequestBuilder) : RequestBuilder :=
  set_Headers (delete "If-Modified-Since" (delete "If-None-Match" (Headers rb))) rb.

(** Every entry of the cache is a Response that carries its
    [*http.Response], as every Response the engine inserts does. *)
Definition cache_ok (w : World) : Prop :=
  ∀ url q, resourceCache w !! url = Some q →
    ∃ r, heap w !! q = Some r ∧ is_Some (Resp r).

(** Every attempt gets the answer [r]. *)
Definition answers_always (env : Env) (r : DoResult) : Prop :=
  ∀ tr req, clientDo env tr req = r.

(** The strategy of [rb], if any, does not retry on the answer [r]. *)
Definition lets_be (r : DoResult) (rb : RequestBuilder) : Prop :=
  ∀ s, RetryStrategy rb = Some s →
       ∀ req n, Retry (ShouldRetry s req (do_resp r) (do_err r) n) = false.

Definition is_retry_break (e : Event) : bool :=
  match e with
  | EvSimpleMetric name _ => String.eqb name "go.api_call.retry_break"
  | _ => false
  end.

Definition is_limiter_reject (e : Event) : bool :=
  match e with
  | EvLimiterAction false => true
  | _ => false
  end.

(** The events of [retryFunc]. *)
Definition retry_events (r : DoResult) (rr : RetryResponse) : list Event :=
  (match r with DoOk _ => [EvDrainBody] | DoErr _ _ => [] end ++ [EvSleep (Delay rr)])%list.

(** A TTL, a Last-Modified time or an ETag was extracted into [r]. *)
Definition has_cache_metadata (r : Response) : Prop :=
  is_Some (ttl r) ∨ is_Some (lastModified r) ∨ etag r ≠ "".

Definition is_setNX (e : Event) : bool :=
  match e with EvCacheSetNX _ _ => true | _ => false end.

(** ** More vocabulary *)

(** A property of every request handed to the transport. *)
Definition on_requests (Q : Request → Prop) (e : Event) : Prop :=
  match e with
  | EvClientDo req => Q req
  | _ => True
  end.

Definition is_sleep (e : Event) : bool :=
  match e with EvSleep _ => true | _ => false end.

(** The events [prepare] can emit: the configuration event and the
    forwarded-header metric. *)
Definition prepare_event (e : Event) : bool :=
  match e with
  | EvSimpleMetric _ _ | EvCustomEvent _ => true
  | _ => false
  end.

(** The pool name requests go out with: the builder's, or the one inferred
    from the call site when the builder has none. *)
Definition effective_pool (env : Env) (rb : RequestBuilder) : string :=
  if String.eqb (poolName rb) "" then getCallerFile env else poolName rb.

(** The revalidation mark of a Response agrees with its metadata: it is
    set exactly when there is no TTL but a Last-Modified time or an ETag. *)
Definition well_marked (r : Response) : Prop :=
  revalidate r = true ↔ ttl r = None ∧ (is_Some (lastModified r) ∨ etag r ≠ "").

(** The names of the headers that the engine sets by itself. *)
Definition engine_headers : list string :=
  ["Connection"; "Cache-Control"; "X-Original-URL"; "Authorization"; "User-Agent";
   "Accept"; "Content-Type"; "If-None-Match"; "If-Modified-Since";
   socketTimeoutConfig; restClientPoolName].

(** Canonicalisation tells these names apart. *)
Definition canon_separates (canon : string → string) : Prop :=
  ∀ k k', In k engine_headers → In k' engine_headers → canon k = canon k' → k = k'.

(** The User-Agent requests go out with. *)
Definition effective_user_agent (rb : RequestBuilder) : string :=
  if String.eqb (UserAgent rb) "" then "github.com/go-loco/restful" else UserAgent rb.

(** * Properties *)

(** ** The pattern and [setTTL] *)

Lemma take_digits_all_digits s : all_digits (take_digits s) = true.
Proof.
  induction s as [|c s IH]; simpl; [done|].
  destruct (is_digit c) eqn:Hc; simpl; [|done].
  by rewrite Hc, IH.
Qed.

(** Whatever the pattern captures is a non-empty run of digits. *)
Lemma maxAge_match_here_digits s d :
  maxAge_match_here s = Some d → all_digits d = true ∧ d ≠ "".
Proof.
  unfold maxAge_match_here, digits1.
  destruct (strip_prefix "max-age=" s) as [r|];
    [|destruct (strip_prefix "s-maxage=" s) as [r|]; [|done]];
    (destruct (take_digits r) eqn:E; [done|]; intros [= <-]; rewrite <- E;
     split; [apply take_digits_all_digits | by rewrite E]).
Qed.

Lemma maxAge_FindStringSubmatch_digits s d :
  maxAge_FindStringSubmatch s = Some d → all_digits d = true ∧ d ≠ "".
Proof.
  induction s as [|c s IH]; cbn [maxAge_FindStringSubmatch].
  - destruct (maxAge_match_here "") eqn:E; [|done].
    intros [= <-]. by apply maxAge_match_here_digits in E.
  - destruct (maxAge_match_here (String c s)) eqn:E; [|done].
    intros [= <-]. by apply maxAge_match_here_digits in E.
Qed.

Lemma wrap64_small z : - 2 ^ 63 ≤ z ≤ maxInt64 → wrap64 z = z.
Proof.
  unfold wrap64, maxInt64. intros H.
  rewrite Z.mod_small; lia.
Qed.

(** The decimal digits that [pretty] prints are read back by [Atoi]. *)
Lemma pretty_N_char_value d :
  (d < 10)%N →
  is_digit (pretty_N_char d) = true ∧
  Z.of_nat (nat_of_ascii (pretty_N_char d)) - 48 = Z.of_N d.
Proof.
  intros Hd.
  assert (d = 0 ∨ d = 1 ∨ d = 2 ∨ d = 3 ∨ d = 4 ∨ d = 5 ∨ d = 6 ∨ d = 7 ∨ d = 8 ∨ d = 9)%N
    as Hcases by lia.
  repeat (destruct Hcases as [-> | Hcases]; [by vm_compute|]). subst. by vm_compute.
Qed.

Lemma pretty_N_go_digits x :
  ∀ s, (0 < x)%N →
    digits_value 0 (pretty_N_go x s) = digits_value (Z.of_N x) s ∧
    all_digits (pretty_N_go x s) = all_digits s ∧
    pretty_N_go x s ≠ "".
Proof.
  induction (N.lt_wf_0 x) as [x _ IH]. intros s Hx.
  rewrite pretty_N_go_step by done.
  destruct (pretty_N_char_value (x `mod` 10)%N) as [Hdig Hval].
  { apply N.mod_lt. lia. }
  pose proof (N.div_mod' x 10) as Hdm.
  assert (x `div` 10 < x)%N as Hlt by (apply N.div_lt; lia).
  revert Hdig Hval Hdm Hlt IH.
  generalize (x `mod` 10)%N as m. generalize (x `div` 10)%N as q.
  intros q m Hdig Hval Hdm Hlt IH.
  destruct (decide (q = 0)%N) as [-> | Hnz].
  - rewrite pretty_N_go_0. simpl. rewrite Hdig, Hval. simpl.
    split; [|done]. f_equal. lia.
  - destruct (IH q Hlt (String (pretty_N_char m) s)) as (Hv & Ha & Hne); [lia|].
    rewrite Hv, Ha. simpl. rewrite Hdig, Hval. simpl.
    split; [|done]. f_equal. lia.
Qed.

Lemma Atoi_pretty n :
  0 < n ≤ maxInt64 → Atoi (pretty n) = Some n ∧ all_digits (pretty n) = true ∧ pretty n ≠ "".
Proof.
  intros [Hpos Hmax]. destruct n as [|p|p]; [lia| |lia].
  unfold pretty, pretty_Z, pretty, pretty_positive, pretty, pretty_N.
  rewrite decide_False by lia.
  destruct (pretty_N_go_digits (N.pos p) "") as (Hv & Ha & Hne); [lia|].
  simpl in Hv, Ha. unfold Atoi.
  destruct (pretty_N_go (N.pos p) "") eqn:E; [done|].
  rewrite Ha, Hv. simpl.
  assert ((Z.pos p <=? maxInt64) = true) as -> by lia. done.
Qed.

Lemma strip_prefix_app p s : strip_prefix p (p +:+ s) = Some s.
Proof. induction p as [|a p IH]; [done|]. simpl. by rewrite Ascii.eqb_refl. Qed.

Lemma take_digits_app d rest :
  all_digits d = true →
  match rest with String c _ => is_digit c = false | EmptyString => True end →
  take_digits (d +:+ rest) = d.
Proof.
  intros Hd Hrest. induction d as [|c d IH]; simpl in *.
  - destruct rest as [|c r]; [done|]. simpl. by rewrite Hrest.
  - apply andb_prop in Hd as [-> Hd]. by rewrite IH.
Qed.

Lemma maxAge_FindStringSubmatch_head d rest :
  all_digits d = true → d ≠ "" →
  match rest with String c _ => is_digit c = false | EmptyString => True end →
  maxAge_FindStringSubmatch ("max-age=" +:+ d +:+ rest) = Some d
  ∧ maxAge_FindStringSubmatch ("s-maxage=" +:+ d +:+ rest) = Some d.
Proof.
  intros Hd Hne Hrest.
  assert (digits1 (d +:+ rest) = Some d) as Hd1.
  { unfold digits1. rewrite take_digits_app by done. by destruct d. }
  split.
  - change ("max-age=" +:+ d +:+ rest) with (String "m" ("ax-age=" +:+ d +:+ rest)).
    cbn [maxAge_FindStringSubmatch]. unfold maxAge_match_here.
    change (String "m" ("ax-age=" +:+ d +:+ rest)) with ("max-age=" +:+ (d +:+ rest)).
    by rewrite strip_prefix_app, Hd1.
  - change ("s-maxage=" +:+ d +:+ rest) with (String "s" ("-maxage=" +:+ d +:+ rest)).
    cbn [maxAge_FindStringSubmatch]. unfold maxAge_match_here.
    change (strip_prefix "max-age=" (String "s" ("-maxage=" +:+ d +:+ rest))) with (@None string).
    change (String "s" ("-maxage=" +:+ d +:+ rest)) with ("s-maxage=" +:+ (d +:+ rest)).
    by rewrite strip_prefix_app, Hd1.
Qed.

Section setTTL_facts.
Variables (env : Env) (tr : list Event) (resp : Response).

Lemma setTTL_max_age d n :
  maxAge_FindStringSubmatch (header_get (canon env) (resp_Header resp) "Cache-Control") = Some d →
  Atoi d = Some n → (0 < n) → (n * Second ≤ maxInt64) →
  setTTL env tr resp = (true, set_ttl (now env tr + n * Second) resp).
Proof.
  intros Hd Hn Hpos Hfit. unfold setTTL.  rewrite Hd, Hn.
  assert ((0 <? n) = true) as -> by lia.
  rewrite wrap64_small; [done|]. unfold Second in *. lia.
Qed.



(** A header that starts with the directive, written out. *)
Lemma setTTL_max_age_header n rest :
  (0 < n) → (n * Second ≤ maxInt64) →
  match rest with String c _ => is_digit c = false | EmptyString => True end →
  header_get (canon env) (resp_Header resp) "Cache-Control" = "max-age=" +:+ pretty n +:+ rest
  ∨ header_get (canon env) (resp_Header resp) "Cache-Control" = "s-maxage=" +:+ pretty n +:+ rest →
  setTTL env tr resp = (true, set_ttl (now env tr + n * Second) resp).
Proof.
  intros Hpos Hfit Hrest Hcc.
  destruct (Atoi_pretty n) as (Hatoi & Hdig & Hne).
  { unfold Second, maxInt64 in *. lia. }
  destruct (maxAge_FindStringSubmatch_head (pretty n) rest Hdig Hne Hrest) as [H1 H2].
  apply (setTTL_max_age (pretty n) n); try done.
  by destruct Hcc as [-> | ->].
Qed.

(** The flag returned tells whether a TTL was written. *)
Lemma setTTL_flag :
  ttl resp = None →
  ∀ b r, setTTL env tr resp = (b, r) → (b = true ↔ is_Some (ttl r)).
Proof.
  intros Hnone b r. unfold setTTL.
  repeat case_match; intros [= <- <-]; simpl; rewrite ?Hnone;
    split; (done || by intros [? [=]] || eauto).
Qed.
End setTTL_facts.

(** ** What a step may touch *)

Lemma extends_refl P w : extends P w w.
Proof. split; try done. exists []. by rewrite app_nil_r. Qed.

Lemma extends_trans P w1 w2 w3 : extends P w1 w2 → extends P w2 w3 → extends P w1 w3.
Proof.
  intros [Hh Hc Hf [e1 [Ht1 Hp1]]] [Hh' Hc' Hf' [e2 [Ht2 Hp2]]].
  split; try congruence.
  exists (e1 ++ e2)%list. rewrite Ht2, Ht1, <- app_assoc, forallb_app, Hp1, Hp2. done.
Qed.

Lemma extends_emit P e w : P e = true → extends P w (emit e w).
Proof. intros He. split; try done. exists [e]. simpl. by rewrite He. Qed.

Lemma extends_set_poolMap P s w : extends P w (set_poolMap s w).
Proof. split; try done. exists []. by rewrite app_nil_r. Qed.

Lemma kept_refl rb : kept rb rb.
Proof. by split. Qed.

Lemma kept_trans rb1 rb2 rb3 : kept rb1 rb2 → kept rb2 rb3 → kept rb1 rb3.
Proof.
  intros H1 H2. destruct H1, H2. split; try congruence.
  - intros Hne. rewrite kept_poolName1; [by apply kept_poolName0|].
    by rewrite kept_poolName0.
  - intros Ho. destruct (kept_Client0 Ho) as (Hc & Hp & Ho').
    destruct (kept_Client1 Ho') as (Hc' & Hp' & Ho''). repeat split; congruence.
Qed.

Section engine_facts.
Variable env : Env.

Lemma getCallerFile_nonempty : getCallerFile env ≠ "".
Proof. unfold getCallerFile. by repeat case_match. Qed.

Lemma getTransport_kept rb t rb' :
  getTransport env rb = (t, rb') →
  CustomPool rb = None ∧ rb' = rb ∨
  ∃ cp, CustomPool rb = Some cp ∧
    (poolOnce cp = true ∧ rb' = rb ∨ ∃ cp', rb' = set_CustomPool (Some cp') rb).
Proof.
  unfold getTransport. destruct (CustomPool rb) as [cp|] eqn:Hcp.
  - intros H. right. exists cp. split; [done|].
    destruct (poolOnce cp); injection H as <- <-; eauto.
  - intros [= <- <-]. by left.
Qed.

Lemma getClient_kept rb : kept rb (getClient env rb).
Proof.
  unfold getClient. destruct (clientMtxOnce rb) eqn:Ho; [apply kept_refl|].
  destruct (getTransport env rb) as [t rb1] eqn:Ht.
  apply getTransport_kept in Ht as [[_ ->] | (cp & _ & [[_ ->] | [cp' ->]])];
    split; simpl; intros; try done; congruence.
Qed.

Lemma sendRestMetrics_extends rb w : extends loop_event w (sendRestMetrics rb w).
Proof.
  unfold sendRestMetrics. case_decide; [apply extends_refl|].
  eapply extends_trans; [apply extends_set_poolMap | by apply extends_emit].
Qed.

Lemma copyTraceHeaders_extends opt req w req' w' :
  copyTraceHeaders env opt req w = (req', w') → extends loop_event w w'.
Proof.
  unfold copyTraceHeaders.
  revert req' w'. generalize (optForwarded opt) at 1 3. intros m.
  apply (map_fold_weak_ind (λ (acc : Request * World) _,
           ∀ req' w', acc = (req', w') → extends loop_event w w')).
  - intros ?? [= <- <-]. apply extends_refl.
  - intros i x m' [r w1] _ IH req' w'. specialize (IH r w1 eq_refl).
    case_match; intros [= <- <-]; [|done].
    eapply extends_trans; [done | by apply extends_emit].
Qed.

Lemma recordApiCall_extends rb r n w : extends loop_event w (recordApiCall rb r n w).
Proof. unfold recordApiCall. case_match; [apply extends_refl | by apply extends_emit]. Qed.

Lemma recordRetryBreak_extends rb w : extends loop_event w (recordRetryBreak rb w).
Proof. unfold recordRetryBreak. case_match; [apply extends_refl | by apply extends_emit]. Qed.

Lemma retryFunc_extends r rr w : extends loop_event w (retryFunc r rr w).
Proof.
  unfold retryFunc. eapply extends_trans; [|by apply extends_emit].
  destruct r; [by apply extends_emit | apply extends_refl].
Qed.

Section loop_facts.
Variables (verb reqURL : string) (body : bytes) (cacheResp : option nat)
  (cacheURL : string) (opt : reqOptions).

Lemma prepare_spec rb w request rb' w' :
  prepare env verb reqURL body cacheResp cacheURL opt rb w = (request, rb', w') →
  kept rb rb' ∧ extends loop_event w w' ∧ poolName rb' ≠ "".
Proof.
  unfold prepare.
  destruct (String.eqb (poolName rb) "") eqn:Hp.
  - destruct (copyTraceHeaders _ _ _ _) as [rq w1] eqn:Hc. intros [= <- <- <-].
    apply copyTraceHeaders_extends in Hc.
    pose proof (getClient_kept (set_poolName (getCallerFile env) rb)) as Hk.
    apply String.eqb_eq in Hp. split; [|split].
    + eapply kept_trans; [|exact Hk]. by split.
    + eapply extends_trans; [apply sendRestMetrics_extends | done].
    + destruct Hk. rewrite kept_poolName0; simpl; apply getCallerFile_nonempty.
  - destruct (copyTraceHeaders _ _ _ _) as [rq w1] eqn:Hc. intros [= <- <- <-].
    apply copyTraceHeaders_extends in Hc.
    pose proof (getClient_kept rb) as Hk.
    apply String.eqb_neq in Hp. split; [done|split; [done|]].
    destruct Hk. by rewrite kept_poolName0.
Qed.

Lemma attempts_spec fuel : ∀ retries rb w x rb' w',
  attempts env verb reqURL body cacheResp cacheURL opt fuel retries rb w = Some (x, rb', w') →
  kept rb rb' ∧ extends loop_event w w'.
Proof.
  induction fuel as [|fuel IH]; intros retries rb w x rb' w'; simpl; [done|].
  destruct (newRequestErr env verb reqURL).
  { intros [= <- <- <-]. split; [apply kept_refl | apply extends_refl]. }
  destruct (prepare _ _ _ _ _ _ _ _ _) as [[request rb1] w1] eqn:Hprep.
  apply prepare_spec in Hprep as (Hk & He & _).
  set (r := clientDo env (trace w1) request).
  set (w2 := recordApiCall rb1 r retries (emit (EvClientDo request) w1)).
  assert (extends loop_event w w2) as He2.
  { eapply extends_trans; [exact He|].
    eapply extends_trans; [|apply recordApiCall_extends]. by apply extends_emit. }
  destruct (RetryStrategy rb1) as [strategy|]; [|by intros [= <- <- <-]].
  destruct (Retry _); [|by intros [= <- <- <-]].
  destruct (circuitBreaker rb1).
  - intros H. apply IH in H as [Hk' He']. split; [by eapply kept_trans|].
    eapply extends_trans; [exact He2|].
    eapply extends_trans; [apply retryFunc_extends | exact He'].
  - destruct (limiterAdmits env (trace w2)).
    + intros H. apply IH in H as [Hk' He']. split; [by eapply kept_trans|].
      eapply extends_trans; [exact He2|].
      eapply extends_trans; [|exact He'].
      eapply extends_trans; [|apply retryFunc_extends]. by apply extends_emit.
    + intros [= <- <- <-]. split; [done|].
      eapply extends_trans; [exact He2|].
      eapply extends_trans; [|apply recordRetryBreak_extends]. by apply extends_emit.
Qed.
End loop_facts.
End engine_facts.

(** ** Traces *)

Lemma trace_by_refl P w : trace_by P w w.
Proof. exists []. by rewrite app_nil_r. Qed.


Lemma trace_by_same P w w' : trace w' = trace w → trace_by P w w'.
Proof. intros H. exists []. by rewrite app_nil_r. Qed.


Lemma count_events_app P tr1 tr2 :
  count_events P (tr1 ++ tr2) = (count_events P tr1 + count_events P tr2)%nat.
Proof. unfold count_events. by rewrite List.filter_app, length_app. Qed.

Lemma count_events_none P Q evs :
  (∀ e, Q e = true → P e = false) → forallb Q evs = true → count_events P evs = 0%nat.
Proof.
  intros HQP. induction evs as [|e evs IH]; [done|].
  simpl. intros [He Hevs]%andb_prop. unfold count_events in *. simpl.
  rewrite (HQP e He). by apply IH.
Qed.

Lemma new_addr_fresh w : heap w !! new_addr w = None.
Proof. apply not_elem_of_dom. unfold new_addr. apply is_fresh. Qed.

Section doRequest_facts.
Variable env : Env.

Lemma resourceCache_get_spec key w cacheResp w' :
  resourceCache_get env key w = (cacheResp, w') →
  trace w' = trace w ∧ resourceCache w' = resourceCache w ∧
  futureCells w' = futureCells w ∧
  match cacheResp with
  | None => w' = w
  | Some p =>
      resourceCache w !! key = Some p ∧
      ∃ c, heap w !! p = Some c ∧
        (w' = w ∨ expired (now env (trace w)) c = true ∧ w' = store p (set_revalidate true c) w)
  end.
Proof.
  unfold resourceCache_get.
  destruct (resourceCache w !! key) as [p|]; [|by intros [= <- <-]].
  destruct (heap w !! p) as [c|] eqn:Hc; [|by intros [= <- <-]].
  destruct (expired _ c) eqn:He; intros [= <- <-]; (repeat split; try done); eauto.
Qed.

(** The lookup finds nothing when caching is off, the verb is not a read
    verb, or the URL has no entry. *)
Lemma cacheLookup_miss rb verb url w :
  EnableCache rb = false ∨ matchVerbs verb readVerbs = false ∨ resourceCache w !! url = None →
  ∃ w', cacheLookup env rb verb url w = (None, false, w') ∧
    extends is_cache_access w w'.
Proof.
  intros H. unfold cacheLookup.
  destruct (EnableCache rb && matchVerbs verb readVerbs) eqn:Hon.
  - apply andb_prop in Hon as [He Hv].
    destruct H as [H | [H | H]]; [congruence..|].
    unfold resourceCache_get. simpl. rewrite H.
    eexists. split; [done|]. by apply extends_emit.
  - eexists. split; [done|]. apply extends_refl.
Qed.

(** The lookup of an entry that needs revalidation: the entry is found,
    marked as hit, and not returned at once. *)
Lemma cacheLookup_stale rb verb url w q c :
  EnableCache rb = true → matchVerbs verb readVerbs = true →
  resourceCache w !! url = Some q → heap w !! q = Some c →
  revalidate c = true ∨ (∀ tr, expired (now env tr) c = true) →
  ∃ w' c', cacheLookup env rb verb url w = (Some q, false, w') ∧
    heap w' = <[q := c']> (heap w) ∧
    Resp c' = Resp c ∧ Err c' = Err c ∧ byteBody c' = byteBody c ∧
    etag c' = etag c ∧ revalidate c' = true ∧ cacheHit c' = true ∧
    resourceCache w' = resourceCache w ∧ futureCells w' = futureCells w ∧
    trace w' = (trace w ++ [EvCacheGet url])%list.
Proof.
  intros He Hv Hq Hc Hstale. unfold cacheLookup. rewrite He, Hv. simpl.
  unfold resourceCache_get. simpl. rewrite Hq, Hc.
  destruct (expired _ c) eqn:Hx.
  - simpl. rewrite lookup_insert_eq. simpl.
    eexists _, _. split; [done|]. simpl. rewrite insert_insert_eq.
    by repeat split.
  - simpl. rewrite Hc. destruct Hstale as [Hr | Hr]; [|by rewrite Hr in Hx].
    rewrite Hr. simpl. eexists _, _. split; [done|]. by repeat split.
Qed.

Lemma cacheLookup_trace rb verb url w cacheResp hit w' :
  cacheLookup env rb verb url w = (cacheResp, hit, w') →
  trace_by is_cache_access w w' ∧ resourceCache w' = resourceCache w ∧
  futureCells w' = futureCells w.
Proof.
  unfold cacheLookup. destruct (EnableCache rb && matchVerbs verb readVerbs).
  - destruct (resourceCache_get _ _ _) as [cr w1] eqn:Hg.
    apply resourceCache_get_spec in Hg as (Ht & Hc & Hf & _). simpl in *.
    assert (trace_by is_cache_access w w1).
    { exists [EvCacheGet url]. by rewrite Ht. }
    destruct cr as [p|]; [destruct (heap w1 !! p)|]; intros [= <- <- <-].
    + done.
    + done.
    + done.
  - intros [= <- <- <-]. split; [apply trace_by_refl | done].
Qed.
End doRequest_facts.

(** ** The circuit breaker gate *)

(** C1. When a circuit breaker is configured and [Allow] denies the call,
    [DoRequest] returns at once, whatever the fuel: the result is a new
    Response that carries the denial error and status 500, and the only
    event is the call of [Allow] itself, so there is no network call, no
    cache read or write and no step of the retry loop; the cache and every
    other Response are as before. *)
Theorem DoRequest_breaker_denied (env : Env) (fuel : nat) (rb : RequestBuilder)
    (verb reqURL : string) (reqBody : option GoValue) (opts : list Option)
    (w : World) (cb : CircuitBreakerT) (after : option nat) (err : error) :
  circuitBreaker rb = Some cb →
  Allow cb (trace w) = (after, Some err) →
  ∃ p r w',
    DoRequest env fuel rb verb reqURL reqBody opts w = Some (Returned (Some p), rb, w')
    ∧ heap w !! p = None
    ∧ heap w' = <[p := r]> (heap w)
    ∧ Err r = Some err
    ∧ resp_StatusCode r = StatusInternalServerError
    ∧ trace w' = (trace w ++ [EvAllow])%list
    ∧ count_events is_network (trace w') = count_events is_network (trace w)
    ∧ count_events is_cache_access (trace w') = count_events is_cache_access (trace w)
    ∧ count_events is_retry_step (trace w') = count_events is_retry_step (trace w)
    ∧ resourceCache w' = resourceCache w.
Proof.
  intros Hcb Hdeny. unfold DoRequest. rewrite Hcb, Hdeny.
  eexists _, _, _. split; [done|]. simpl.
  split; [apply (new_addr_fresh (emit EvAllow w))|].
  rewrite !count_events_app. simpl. repeat split; try done; lia.
Qed.

Lemma DoRequest_breaker_denied_witness :
  ∃ p r w',
    DoRequest Sample.env 0 (Sample.with_breaker Sample.open_breaker Sample.rb0)
      "GET" "/x" None [] Sample.w0 =
      Some (Returned (Some p), Sample.with_breaker Sample.open_breaker Sample.rb0, w')
    ∧ heap Sample.w0 !! p = None
    ∧ heap w' = <[p := r]> (heap Sample.w0)
    ∧ Err r = Some "circuit breaker is open"
    ∧ resp_StatusCode r = StatusInternalServerError
    ∧ trace w' = [EvAllow]
    ∧ count_events is_network (trace w') = 0%nat
    ∧ count_events is_cache_access (trace w') = 0%nat
    ∧ count_events is_retry_step (trace w') = 0%nat
    ∧ resourceCache w' = ∅.
Proof.
  apply (DoRequest_breaker_denied Sample.env 0
           (Sample.with_breaker Sample.open_breaker Sample.rb0) "GET" "/x" None []
           Sample.w0 Sample.open_breaker None "circuit breaker is open");
    reflexivity.
Defined.

(** ** What one request leaves behind *)

Section request_frame.
Variable env : Env.



Lemma resourceCache_setNX_frame key p w :
  trace (resourceCache_setNX key p w) = trace w ∧
  heap (resourceCache_setNX key p w) = heap w ∧
  futureCells (resourceCache_setNX key p w) = futureCells w.
Proof. unfold resourceCache_setNX. by repeat case_match. Qed.

Lemma finish_trace rb verb cacheURL cacheResp result r w o w' :
  finish env rb verb cacheURL cacheResp result r w = (o, w') →
  trace_by is_cache_access w w' ∧ futureCells w' = futureCells w.
Proof.
  unfold finish. destruct r as [h|h e].
  2:{ intros [= <- <-]. split; [by apply trace_by_same | done]. }
  destruct (BodyErr h).
  { intros [= <- <-]. split; [by apply trace_by_same | done]. }
  destruct (EnableCache rb && (StatusCode h =? StatusNotModified)).
  { intros [= <- <-]. split; [apply trace_by_refl | done]. }
  destruct (readBody _ _ _ _) as [res nilReader].
  destruct (setTTL _ _ _) as [ttl_ res1].
  destruct (setLastModified _ _) as [lm_ res2].
  destruct (setETag _ _) as [etag_ res3].
  destruct (EnableCache rb && matchVerbs verb readVerbs && (ttl_ || lm_ || etag_)).
  - intros [= <- <-].
    destruct (resourceCache_setNX_frame cacheURL result
                (emit (EvCacheSetNX cacheURL result)
                   (store result
                      (if negb ttl_ && (lm_ || etag_) then set_revalidate true res3 else res3) w)))
      as (Ht & _ & Hf).
    split; [|by rewrite Hf]. exists [EvCacheSetNX cacheURL result]. by rewrite Ht.
  - intros [= <- <-]. split; [by apply trace_by_same | done].
Qed.


Lemma complete_spec after o w o' w' :
  complete after o w = (o', w') →
  w' = w ∨ ∃ cb success, after = Some cb ∧ w' = emit (EvAfter cb success) w.
Proof.
  unfold complete. repeat case_match; intros [= <- <-]; eauto.
Qed.

End request_frame.

(** ** A server that answers every attempt alike *)

Section fixed_answer.
Variables (env : Env) (r : DoResult).

(** Then the loop makes one attempt and ends with [r]. *)
Lemma attempts_single verb reqURL body cacheResp cacheURL opt fuel retries rb w :
  newRequestErr env verb reqURL = None →
  answers_always env r → lets_be r rb →
  ∃ rb' w',
    attempts env verb reqURL body cacheResp cacheURL opt (S fuel) retries rb w
      = Some (Attempted r, rb', w')
    ∧ kept rb rb' ∧ extends loop_event w w'.
Proof.
  intros Hnew Hsrv Hlet.
  assert (∃ rb' w',
            attempts env verb reqURL body cacheResp cacheURL opt (S fuel) retries rb w
              = Some (Attempted r, rb', w'))
    as (rb' & w' & Heq).
  { simpl. rewrite Hnew.
    destruct (prepare _ _ _ _ _ _ _ _ _) as [[request rb1] w1] eqn:Hprep.
    apply prepare_spec in Hprep as (Hk & He & _).
    rewrite (Hsrv (trace w1) request).
    destruct (RetryStrategy rb1) as [s|] eqn:Hs; [|by eexists _, _].
    rewrite (Hlet s); [|by rewrite <- (kept_RetryStrategy _ _ Hk)].
    by eexists _, _. }
  exists rb', w'. split; [done|].
  by destruct (attempts_spec _ _ _ _ _ _ _ _ _ _ _ _ _ _ Heq) as [Hk He].
Qed.
End fixed_answer.

(** ** 304 Not Modified *)

Section not_modified.
Variables (env : Env) (h : HttpResponse).
Hypothesis Hstatus : StatusCode h = StatusNotModified.
Hypothesis Hbody : BodyErr h = None.
Hypothesis Hsrv : answers_always env (DoOk h).
Hypothesis Hnew : ∀ v u, newRequestErr env v u = None.
Hypothesis Hmock : mockUpEnv env = false.

(** With caching on, a 304 makes [doRequest] return whatever the cache
    lookup had found, be it nil. *)
Lemma doRequest_not_modified fuel rb verb reqURL reqBody opt w cr w1 body :
  EnableCache rb = true →
  lets_be (DoOk h) rb →
  marshalReqBody env rb reqBody = inl body →
  cacheLookup env rb verb (BaseURL rb +:+ reqURL) (store (new_addr w) zeroResponse w)
    = (cr, false, w1) →
  ∃ rb' w',
    doRequest env (S fuel) rb verb reqURL reqBody opt w = Some (Returned cr, rb', w')
    ∧ kept rb rb' ∧ extends loop_event w1 w'.
Proof.
  intros Hcache Hlet Hm Hl. unfold doRequest. rewrite Hl, Hcache, Hm.
  unfold checkMockup. rewrite Hmock.
  destruct (attempts_single env (DoOk h) verb (BaseURL rb +:+ reqURL) body cr
              (BaseURL rb +:+ reqURL) opt fuel 0 rb w1 (Hnew _ _) Hsrv Hlet)
    as (rb' & w' & -> & Hk & He).
  unfold finish. rewrite Hbody, (kept_EnableCache _ _ Hk), Hcache, Hstatus.
  simpl. by eexists _, _.
Qed.

(** Without a cache entry the result is the nil pointer. *)
Lemma doRequest_not_modified_miss fuel rb verb reqURL reqBody opt w body :
  EnableCache rb = true →
  lets_be (DoOk h) rb →
  marshalReqBody env rb reqBody = inl body →
  matchVerbs verb readVerbs = false ∨ resourceCache w !! (BaseURL rb +:+ reqURL) = None →
  ∃ rb' w', doRequest env (S fuel) rb verb reqURL reqBody opt w = Some (Returned None, rb', w').
Proof.
  intros Hcache Hlet Hm Hmiss.
  destruct (cacheLookup_miss env rb verb (BaseURL rb +:+ reqURL)
              (store (new_addr w) zeroResponse w)) as (w1 & Hl & _); [tauto|].
  destruct (doRequest_not_modified fuel rb verb reqURL reqBody opt w None w1 body)
    as (rb' & w' & Heq & _); try done.
  by exists rb', w'.
Qed.
End not_modified.

(** C4, as the code has it. Caching is on, the verb is a read verb, and the
    cache holds for the URL an entry that needs revalidation (it is marked
    so, or its TTL has passed); the request can be built, the breaker (if
    any) admits it, the server answers 304 with a readable body, and the
    retry strategy (if any) does not retry on that. Then [DoRequest] returns
    the pointer the cache holds; the Response behind it has the body and the
    embedded response it had, is marked as served from the cache, and is
    still the entry of the URL. *)
Theorem DoRequest_not_modified_returns_entry (env : Env) (fuel : nat)
    (rb : RequestBuilder) (verb reqURL : string) (reqBody : option GoValue)
    (opts : list Option) (w : World) (q : nat) (c : Response) (h : HttpResponse)
    (body : bytes) :
  EnableCache rb = true →
  matchVerbs verb readVerbs = true →
  resourceCache w !! (BaseURL rb +:+ reqURL) = Some q →
  heap w !! q = Some c →
  revalidate c = true ∨ (∀ tr, expired (now env tr) c = true) →
  is_Some (Resp c) →
  (∀ cb, circuitBreaker rb = Some cb → snd (Allow cb (trace w)) = None) →
  marshalReqBody env rb reqBody = inl body →
  mockUpEnv env = false →
  (∀ v u, newRequestErr env v u = None) →
  answers_always env (DoOk h) →
  StatusCode h = StatusNotModified →
  BodyErr h = None →
  lets_be (DoOk h) rb →
  ∃ rb' w' c',
    DoRequest env (S fuel) rb verb reqURL reqBody opts w = Some (Returned (Some q), rb', w')
    ∧ heap w' !! q = Some c'
    ∧ byteBody c' = byteBody c
    ∧ Resp c' = Resp c
    ∧ cacheHit c' = true
    ∧ resourceCache w' !! (BaseURL rb +:+ reqURL) = Some q.
Proof.
  intros Hcache Hverb Hq Hc Hstale [hc Hresp] Hadmit Hm Hmock Hnew Hsrv Hstatus Hbody Hlet.
  assert (∀ w0 after,
            heap w0 = heap w → resourceCache w0 = resourceCache w →
            ∃ rb' w' c' o,
              doRequest env (S fuel) rb verb reqURL reqBody (apply_opts opts) w0
                = Some (Returned (Some q), rb', w')
              ∧ complete after (Returned (Some q)) w' = (Returned (Some q), o)
              ∧ heap o !! q = Some c' ∧ byteBody c' = byteBody c ∧ Resp c' = Resp c
              ∧ cacheHit c' = true
              ∧ resourceCache o !! (BaseURL rb +:+ reqURL) = Some q) as Hrun.
  { intros w0 after Hh0 Hc0.
    assert (q ≠ new_addr w0) as Hne.
    { intros ->. pose proof (new_addr_fresh w0) as Hf. rewrite Hh0 in Hf. congruence. }
    destruct (cacheLookup_stale env rb verb (BaseURL rb +:+ reqURL)
                (store (new_addr w0) zeroResponse w0) q c)
      as (w1 & c' & Hl & Hh1 & HR & HE & HB & _ & _ & HH & Hc1 & _ & _); try done.
    { simpl. by rewrite Hc0. }
    { simpl. rewrite lookup_insert_ne, Hh0; done. }
    destruct (doRequest_not_modified env h Hstatus Hbody Hsrv Hnew Hmock fuel rb verb
                reqURL reqBody (apply_opts opts) w0 (Some q) w1 body)
      as (rb' & w' & Heq & _ & [Hh2 Hc2 _ _]); try done.
    assert (heap w' !! q = Some c') as Hq'.
    { rewrite Hh2, Hh1. apply lookup_insert_eq. }
    assert (resourceCache w' !! (BaseURL rb +:+ reqURL) = Some q) as Hcq.
    { rewrite Hc2, Hc1. simpl. by rewrite Hc0. }
    assert (∃ s, success_of c' = Some s) as [s Hs].
    { unfold success_of. rewrite HR, Hresp. destruct (Err c'); eauto. }
    destruct after as [cb|].
    - exists rb', w', c', (emit (EvAfter cb s) w'). split; [done|].
      unfold complete. simpl. rewrite Hq', Hs. by repeat split.
    - exists rb', w', c', w'. by repeat split. }
  unfold DoRequest. destruct (circuitBreaker rb) as [cb|] eqn:Hcb.
  - specialize (Hadmit cb eq_refl).
    destruct (Allow cb (trace w)) as [after err]. simpl in Hadmit. subst err.
    destruct (Hrun (emit EvAllow w) after) as (rb' & w' & c' & o & -> & -> & H); try done.
    by exists rb', o, c'.
  - destruct (Hrun w None) as (rb' & w' & c' & o & -> & -> & H); try done.
    by exists rb', o, c'.
Qed.

Lemma DoRequest_not_modified_returns_entry_witness :
  ∃ rb' w' c',
    DoRequest Sample.env304 1 Sample.rb0 "GET" "/doc" None [] Sample.w_stale
      = Some (Returned (Some 5%nat), rb', w')
    ∧ heap w' !! 5%nat = Some c'
    ∧ byteBody c' = ["d"%char]
    ∧ Resp c' = Resp Sample.entry
    ∧ cacheHit c' = true
    ∧ resourceCache w' !! "http://api/doc" = Some 5%nat.
Proof.
  apply (DoRequest_not_modified_returns_entry Sample.env304 0 Sample.rb0 "GET" "/doc"
           None [] Sample.w_stale 5 Sample.entry Sample.not_modified []).
  - reflexivity.
  - reflexivity.
  - vm_compute. reflexivity.
  - vm_compute. reflexivity.
  - left. reflexivity.
  - eexists. reflexivity.
  - intros cb H. discriminate H.
  - reflexivity.
  - reflexivity.
  - intros v u. reflexivity.
  - intros tr req. reflexivity.
  - reflexivity.
  - reflexivity.
  - intros s H. discriminate H.
Defined.

(** C4, as stated, fails: caching is on, the cache holds a Response for the
    URL and the server answers 304, but the verb is POST, for which the
    cache is not consulted, and [DoRequest] returns the nil pointer. *)
Lemma DoRequest_not_modified_post_returns_nil :
  EnableCache Sample.rb0 = true
  ∧ resourceCache Sample.w_stale !! "http://api/doc" = Some 5%nat
  ∧ (∀ tr req, clientDo Sample.env304 tr req = DoOk Sample.not_modified)
  ∧ StatusCode Sample.not_modified = StatusNotModified
  ∧ outcome_of (DoRequest Sample.env304 1 Sample.rb0 "POST" "/doc" None [] Sample.w_stale)
    = Some (Returned None).
Proof. repeat split; vm_compute; reflexivity. Qed.

(** C5: a failing input. Caching is on, the cache is empty and the server
    answers 304: [DoRequest] returns the nil pointer, and with a circuit
    breaker that admitted the call it dereferences that pointer to compute
    [success], and panics. *)
Theorem DoRequest_not_modified_miss_is_nil :
  outcome_of (DoRequest Sample.env304 1 Sample.rb0 "GET" "/doc" None [] Sample.w0)
    = Some (Returned None)
  ∧ outcome_of (DoRequest Sample.env304 1
                  (Sample.with_breaker Sample.closed_breaker Sample.rb0)
                  "GET" "/doc" None [] Sample.w0)
    = Some Panicked.
Proof. split; vm_compute; reflexivity. Qed.

(** ** The builder across a request *)




(** ** What [doRequest] returns *)

Section result_facts.
Variable env : Env.

Lemma cacheLookup_found rb verb url w q hit w' :
  cacheLookup env rb verb url w = (Some q, hit, w') →
  ∃ c c',
    resourceCache w !! url = Some q ∧ heap w !! q = Some c ∧
    heap w' = <[q := c']> (heap w) ∧
    Resp c' = Resp c ∧ Err c' = Err c ∧ byteBody c' = byteBody c ∧
    hit = negb (revalidate c') ∧ cacheHit c' = true.
Proof.
  unfold cacheLookup. destruct (EnableCache rb && matchVerbs verb readVerbs); [|done].
  destruct (resourceCache_get _ _ _) as [cr w1] eqn:Hg.
  apply resourceCache_get_spec in Hg as (_ & _ & _ & Hg).
  destruct cr as [p|]; [|done].
  destruct Hg as (Hq & c & Hc & [-> | [_ ->]]); simpl in *.
  - rewrite Hc. intros [= <- <- <-]. exists c, (set_cacheHit true c). by repeat split.
  - rewrite lookup_insert_eq. intros [= <- <- <-].
    exists c, (set_cacheHit true (set_revalidate true c)). simpl.
    rewrite insert_insert_eq. by repeat split.
Qed.

Lemma cacheLookup_none rb verb url w hit w' :
  cacheLookup env rb verb url w = (None, hit, w') → hit = false ∧ heap w' = heap w.
Proof.
  unfold cacheLookup. destruct (EnableCache rb && matchVerbs verb readVerbs);
    [|by intros [= <- <-]].
  destruct (resourceCache_get _ _ _) as [cr w1] eqn:Hg.
  apply resourceCache_get_spec in Hg as (_ & _ & _ & Hg).
  destruct cr as [p|].
  - destruct (heap w1 !! p) eqn:Hp; [done|].
    destruct Hg as (_ & c & Hc & [-> | [_ ->]]); simpl in *.
    + congruence.
    + by rewrite lookup_insert_eq in Hp.
  - subst w1. by intros [= <- <-].
Qed.






End result_facts.

(** ** Telling the breaker how the request went *)







(** ** The two ways to retry *)

Lemma retryFunc_trace r rr w :
  trace (retryFunc r rr w) = (trace w ++ retry_events r rr)%list.
Proof. unfold retryFunc, retry_events. destruct r; simpl; by rewrite <- ?app_assoc. Qed.

(** C6, as the code has it. An attempt has been made ([request], [r]), its
    outcome metric recorded ([w2]), and the strategy asks for a retry.
    - With a circuit breaker, the loop goes on directly: the body is
      drained if there is one, the delay is slept, and the next attempt
      runs with the counter increased; the limiter is not asked.
    - Without one, the limiter is asked. If it admits, the same happens
      after its event. If it rejects, the loop ends with the current result
      [r], and the [retry_break] metric is recorded unless api-call metrics
      are disabled in the builder's metrics configuration. *)
Theorem attempts_retry_step (env : Env) (verb reqURL : string) (body : bytes)
    (cacheResp : option nat) (cacheURL : string) (opt : reqOptions) (fuel : nat)
    (retries : Z) (rb : RequestBuilder) (w : World) (request : Request)
    (rb1 : RequestBuilder) (w1 : World) (strategy : RetryStrategyT) :
  newRequestErr env verb reqURL = None →
  prepare env verb reqURL body cacheResp cacheURL opt rb w = (request, rb1, w1) →
  RetryStrategy rb = Some strategy →
  let r := clientDo env (trace w1) request in
  let w2 := recordApiCall rb1 r retries (emit (EvClientDo request) w1) in
  let retryResp := ShouldRetry strategy request (do_resp r) (do_err r) retries in
  Retry retryResp = true →
  (is_Some (circuitBreaker rb) →
     attempts env verb reqURL body cacheResp cacheURL opt (S fuel) retries rb w
       = attempts env verb reqURL body cacheResp cacheURL opt fuel (retries + 1) rb1
           (retryFunc r retryResp w2)
     ∧ trace (retryFunc r retryResp w2) = (trace w2 ++ retry_events r retryResp)%list)
  ∧ (circuitBreaker rb = None → limiterAdmits env (trace w2) = true →
     attempts env verb reqURL body cacheResp cacheURL opt (S fuel) retries rb w
       = attempts env verb reqURL body cacheResp cacheURL opt fuel (retries + 1) rb1
           (retryFunc r retryResp (emit (EvLimiterAction true) w2))
     ∧ trace (retryFunc r retryResp (emit (EvLimiterAction true) w2))
       = (trace w2 ++ EvLimiterAction true :: retry_events r retryResp)%list)
  ∧ (circuitBreaker rb = None → limiterAdmits env (trace w2) = false →
     ∃ w3,
       attempts env verb reqURL body cacheResp cacheURL opt (S fuel) retries rb w
         = Some (Attempted r, rb1, w3)
       ∧ trace w3
         = (trace w2 ++ EvLimiterAction false ::
              (if DisableApiCallMetrics (MetricsConfig rb) then []
               else [EvSimpleMetric "go.api_call.retry_break"
                       [("target_id", TargetId (MetricsConfig rb))]]))%list).
Proof.
  intros Hnew Hprep Hs r w2 retryResp Hretry.
  pose proof (prepare_spec _ _ _ _ _ _ _ _ _ _ _ _ Hprep) as (Hk & _ & _).
  assert (attempts env verb reqURL body cacheResp cacheURL opt (S fuel) retries rb w
          = match circuitBreaker rb with
            | Some _ =>
                attempts env verb reqURL body cacheResp cacheURL opt fuel (retries + 1) rb1
                  (retryFunc r retryResp w2)
            | None =>
                if limiterAdmits env (trace w2)
                then attempts env verb reqURL body cacheResp cacheURL opt fuel (retries + 1) rb1
                       (retryFunc r retryResp (emit (EvLimiterAction true) w2))
                else Some (Attempted r, rb1,
                           recordRetryBreak rb1 (emit (EvLimiterAction false) w2))
            end) as Hstep.
  { simpl. rewrite Hnew, Hprep.
    rewrite (kept_RetryStrategy _ _ Hk), Hs. fold r. fold w2. fold retryResp.
    by rewrite Hretry, (kept_circuitBreaker _ _ Hk). }
  split; [|split].
  - intros [cb Hcb]. rewrite Hstep, Hcb. split; [done | apply retryFunc_trace].
  - intros Hcb Hadm. rewrite Hstep, Hcb, Hadm. split; [done|].
    rewrite retryFunc_trace. simpl. by rewrite <- app_assoc.
  - intros Hcb Hrej. rewrite Hstep, Hcb, Hrej. eexists. split; [done|].
    unfold recordRetryBreak. rewrite (kept_MetricsConfig _ _ Hk).
    destruct (DisableApiCallMetrics _); simpl; [done|]. by rewrite <- app_assoc.
Qed.

(** C6, as stated, fails: the strategy asks for a retry, no breaker is
    configured and the limiter rejects, but api-call metrics are disabled:
    the loop ends with the transport error and no [retry_break] metric is
    recorded. *)
Lemma retry_break_not_recorded :
  circuitBreaker Sample.rb_quiet = None
  ∧ DisableApiCallMetrics (MetricsConfig Sample.rb_quiet) = true
  ∧ ((λ w, count_events is_limiter_reject (trace w)) <$>
       world_of (DoRequest Sample.env 3 Sample.rb_quiet "GET" "/down" None [] Sample.w0))
    = Some 1%nat
  ∧ ((λ w, count_events is_retry_break (trace w)) <$>
       world_of (DoRequest Sample.env 3 Sample.rb_quiet "GET" "/down" None [] Sample.w0))
    = Some 0%nat
  ∧ ((λ w, Err <$> heap w !! 0%nat) <$>
       world_of (DoRequest Sample.env 3 Sample.rb_quiet "GET" "/down" None [] Sample.w0))
    = Some (Some (Some "connection refused")).
Proof. repeat split; vm_compute; reflexivity. Qed.

Lemma attempts_retry_step_witness :
  ∃ r rb1 w3 tr,
    attempts Sample.env "GET" "http://api/down" [] None "http://api/down" (apply_opts [])
      1 0 Sample.rb_quiet Sample.w0 = Some (Attempted r, rb1, w3)
    ∧ trace w3 = (tr ++ [EvLimiterAction false])%list.
Proof.
  pose (x := prepare Sample.env "GET" "http://api/down" [] None "http://api/down"
               (apply_opts []) Sample.rb_quiet Sample.w0).
  assert (prepare Sample.env "GET" "http://api/down" [] None "http://api/down"
            (apply_opts []) Sample.rb_quiet Sample.w0 = (x.1.1, x.1.2, x.2)) as Hp.
  { subst x. destruct (prepare _ _ _ _ _ _ _ _ _) as [[? ?] ?]. reflexivity. }
  destruct (attempts_retry_step Sample.env "GET" "http://api/down" [] None
              "http://api/down" (apply_opts []) 0 0 Sample.rb_quiet Sample.w0
              x.1.1 x.1.2 x.2 Sample.simple_strategy) as (_ & _ & H3).
  - reflexivity.
  - exact Hp.
  - reflexivity.
  - vm_compute. reflexivity.
  - destruct H3 as (w3 & Heq & Htr).
    + reflexivity.
    + vm_compute. reflexivity.
    + eexists _, _, w3, _. split; [exact Heq|]. exact Htr.
Defined.

(** ** Futures *)




(** ** Cache-Control before Expires *)




(** ** What goes into the cache *)

Lemma filter_none (P Q : Event → bool) evs :
  (∀ e, Q e = true → P e = false) → forallb Q evs = true → List.filter P evs = [].
Proof.
  intros HQP. induction evs as [|e evs IH]; [done|].
  simpl. intros [He Hevs]%andb_prop. rewrite (HQP e He). by apply IH.
Qed.

Lemma zeroResponse_no_metadata : ¬ has_cache_metadata zeroResponse.
Proof. intros [[? [=]] | [[? [=]] | H]]; by apply H. Qed.

Section cache_insertion.
Variable env : Env.

(** [setNX] stores the pointer when the URL has no entry, or a stale
    one. *)
Lemma resourceCache_setNX_inserts key p w :
  match resourceCache w !! key with
  | None => True
  | Some q => stale w q = true
  end →
  resourceCache (resourceCache_setNX key p w) = <[key := p]> (resourceCache w).
Proof.
  unfold resourceCache_setNX. destruct (resourceCache w !! key) as [q|]; [|done].
  by intros ->.
Qed.

(** [setNX] keeps a live entry: this is the insert-if-absent part. *)
Lemma resourceCache_setNX_keeps_live key p w q c :
  resourceCache w !! key = Some q → heap w !! q = Some c → revalidate c = false →
  resourceCache_setNX key p w = w.
Proof.
  intros Hq Hc Hr. unfold resourceCache_setNX, stale. by rewrite Hq, Hc, Hr.
Qed.

(** The flags of the three extractions, read off the Response. *)
Lemma extraction_flags rb h tr res nr t res1 l res2 e res3 :
  readBody env rb h (set_Resp h zeroResponse) = (res, nr) →
  setTTL env tr res = (t, res1) →
  setLastModified env res1 = (l, res2) →
  setETag env res2 = (e, res3) →
  (has_cache_metadata res3 ↔ t || l || e = true) ∧ Resp res3 = Some h.
Proof.
  intros H1 H2 H3 H4.
  assert (ttl res = None ∧ lastModified res = None ∧ Resp res = Some h) as (Ht & Hl & HR).
  { revert H1. unfold readBody. repeat case_match; by intros [= <- <-]. }
  assert ((t = true ↔ is_Some (ttl res1)) ∧ lastModified res1 = None ∧ Resp res1 = Some h)
    as (Ht1 & Hl1 & HR1).
  { split; [by eapply setTTL_flag|].
    revert H2. unfold setTTL. repeat case_match; by intros [= <- <-]. }
  assert ((l = true ↔ is_Some (lastModified res2)) ∧ ttl res2 = ttl res1 ∧ Resp res2 = Some h)
    as (Hl2 & Ht2 & HR2).
  { revert H3. unfold setLastModified. case_match; intros [= <- <-]; simpl.
    - repeat split; eauto.
    - rewrite Hl1. repeat split; try done; by intros [? [=]]. }
  revert H4. unfold setETag. intros [= <- <-]. simpl. split; [|done].
  unfold has_cache_metadata. simpl. rewrite Ht2, <- Ht1, <- Hl2.
  destruct (String.eqb_spec
              (header_get (canon env) (resp_Header res2) "ETag") "") as [->|Hne]; simpl.
  - rewrite orb_false_r, orb_true_iff. tauto.
  - rewrite orb_true_r. tauto.
Qed.

(** What [finish] does to the cache, for a read verb with caching on. *)
Lemma finish_cache rb verb cacheURL cacheResp result r w o w' r0 :
  EnableCache rb = true → matchVerbs verb readVerbs = true →
  heap w !! result = Some r0 → ¬ has_cache_metadata r0 →
  finish env rb verb cacheURL cacheResp result r w = (o, w') →
  ∃ r',
    heap w' !! result = Some r' ∧
    ((¬ has_cache_metadata r' ∧ trace w' = trace w ∧ resourceCache w' = resourceCache w)
     ∨ (has_cache_metadata r' ∧ is_Some (Resp r') ∧
        w' = resourceCache_setNX cacheURL result
               (emit (EvCacheSetNX cacheURL result) (store result r' w)))).
Proof.
  intros Hcache Hverb Hr0 Hno. unfold finish.
  assert (∀ e, ¬ has_cache_metadata (set_Err e zeroResponse)) as Herr.
  { intros e. apply zeroResponse_no_metadata. }
  destruct r as [h|h e].
  2:{ intros [= <- <-]. eexists. simpl. rewrite lookup_insert_eq. split; [done|].
      left. by split; [apply Herr|]. }
  destruct (BodyErr h).
  { intros [= <- <-]. eexists. simpl. rewrite lookup_insert_eq. split; [done|].
    left. by split; [apply Herr|]. }
  rewrite Hcache, Hverb, andb_true_l.
  destruct (StatusCode h =? StatusNotModified).
  { intros [= <- <-]. exists r0. split; [done|]. by left. }
  destruct (readBody _ _ _ _) as [res nilReader] eqn:H1.
  destruct (setTTL _ _ _) as [ttl_ res1] eqn:H2.
  destruct (setLastModified _ _) as [lm_ res2] eqn:H3.
  destruct (setETag _ _) as [etag_ res3] eqn:H4.
  destruct (extraction_flags _ _ _ _ _ _ _ _ _ _ _ H1 H2 H3 H4) as [Hflags HR].
  set (res4 := if negb ttl_ && (lm_ || etag_) then set_revalidate true res3 else res3).
  assert ((has_cache_metadata res4 ↔ ttl_ || lm_ || etag_ = true) ∧ Resp res4 = Some h)
    as [Hflags4 HR4].
  { subst res4. by destruct (negb ttl_ && (lm_ || etag_)). }
  fold res4. rewrite !andb_true_l.
  destruct (ttl_ || lm_ || etag_) eqn:Hany; intros [= <- <-]; exists res4.
  - destruct (resourceCache_setNX_frame cacheURL result
                (emit (EvCacheSetNX cacheURL result) (store result res4 w)))
      as (_ & -> & _).
    simpl. rewrite lookup_insert_eq. split; [done|]. right.
    split; [by apply Hflags4|]. split; [by eexists | done].
  - simpl. rewrite lookup_insert_eq. split; [done|]. left.
    split; [|done]. rewrite Hflags4. congruence.
Qed.
End cache_insertion.

Section cache_claim.
Variable env : Env.

(** The world after the lookup that opens [doRequest], for a read verb
    with caching on: the new Response is still blank, and when the lookup
    did not end the request, the URL has no entry or a stale one. *)
Lemma cacheLookup_entry_state rb verb url w cr hit w1 :
  EnableCache rb = true → matchVerbs verb readVerbs = true →
  cacheLookup env rb verb url (store (new_addr w) zeroResponse w) = (cr, hit, w1) →
  trace w1 = (trace w ++ [EvCacheGet url])%list ∧
  resourceCache w1 = resourceCache w ∧
  (∃ r1, heap w1 !! new_addr w = Some r1 ∧ ¬ has_cache_metadata r1) ∧
  (hit = false →
   match resourceCache w1 !! url with
   | None => True
   | Some q => q ≠ new_addr w ∧ stale w1 q = true
   end).
Proof.
  intros Hcache Hverb. unfold cacheLookup. rewrite Hcache, Hverb. simpl.
  unfold resourceCache_get. simpl.
  destruct (resourceCache w !! url) as [q|] eqn:Hq.
  2:{ intros [= <- <- <-]. simpl. rewrite Hq, lookup_insert_eq.
      repeat split; try done. exists zeroResponse. split; [done|].
      apply zeroResponse_no_metadata. }
  destruct (decide (q = new_addr w)) as [->|Hne].
  - rewrite lookup_insert_eq. simpl. rewrite lookup_insert_eq.
    intros [= <- <- <-]. simpl. rewrite lookup_insert_eq.
    repeat split; try done.
    exists (set_cacheHit true zeroResponse). split; [done|].
    apply zeroResponse_no_metadata.
  - rewrite lookup_insert_ne by done.
    destruct (heap w !! q) as [c|] eqn:Hc.
    + destruct (expired _ c) eqn:Hx; simpl.
      * rewrite lookup_insert_eq. intros [= <- <- <-]. simpl.
        rewrite Hq. rewrite lookup_insert_ne by done.
        rewrite lookup_insert_ne by done. rewrite lookup_insert_eq.
        repeat split; try done.
        -- exists zeroResponse. split; [done | apply zeroResponse_no_metadata].
        -- unfold stale. simpl. by rewrite lookup_insert_eq.
      * rewrite lookup_insert_ne by done. rewrite Hc.
        intros [= <- <- <-]. simpl. rewrite Hq.
        rewrite lookup_insert_ne by done. rewrite lookup_insert_eq.
        repeat split; try done.
        -- exists zeroResponse. split; [done | apply zeroResponse_no_metadata].
        -- unfold stale. simpl. rewrite lookup_insert_eq. simpl.
           by destruct (revalidate c).
    + intros [= <- <- <-]. simpl. rewrite Hq, lookup_insert_eq.
      repeat split; try done.
      * exists zeroResponse. split; [done | apply zeroResponse_no_metadata].
      * unfold stale. simpl. rewrite lookup_insert_ne by done. by rewrite Hc.
Qed.

(** C3. For a read verb with caching on, look at the Response [r] that a
    finished [doRequest] leaves at the address it allocated. If a TTL, a
    Last-Modified time or an ETag was extracted into it, then it came off
    the network, [setNX] was called once, for the URL (base URL followed
    by the request URL) and this Response, and the cache now maps the URL
    to it, whether the URL had no entry or a stale one. If none was
    extracted, [setNX] was not called and the cache maps every URL as
    before. A live entry is never overwritten by [setNX]. *)
Theorem doRequest_caches_result (fuel : nat) (rb : RequestBuilder)
    (verb reqURL : string) (reqBody : option GoValue) (opt : reqOptions)
    (w : World) (o : Outcome) (rb' : RequestBuilder) (w' : World) :
  EnableCache rb = true →
  matchVerbs verb readVerbs = true →
  doRequest env fuel rb verb reqURL reqBody opt w = Some (o, rb', w') →
  ∃ r evs,
    heap w' !! new_addr w = Some r
    ∧ trace w' = (trace w ++ evs)%list
    ∧ (has_cache_metadata r →
         is_Some (Resp r)
         ∧ List.filter is_setNX evs = [EvCacheSetNX (BaseURL rb +:+ reqURL) (new_addr w)]
         ∧ resourceCache w' = <[BaseURL rb +:+ reqURL := new_addr w]> (resourceCache w))
    ∧ (¬ has_cache_metadata r →
         List.filter is_setNX evs = [] ∧ resourceCache w' = resourceCache w)
    ∧ (∀ key p w0 q c,
         resourceCache w0 !! key = Some q → heap w0 !! q = Some c →
         revalidate c = false →
         resourceCache_setNX key p w0 = w0).
Proof.
  intros Hcache Hverb. unfold doRequest.
  set (result := new_addr w). set (url := BaseURL rb +:+ reqURL).
  destruct (cacheLookup _ _ _ _ _) as [[cr hit] w1] eqn:Hl.
  apply cacheLookup_entry_state in Hl as (Ht1 & Hc1 & (r1 & Hr1 & Hno1) & Hstale);
    [|done..].
  fold result in Hr1, Hstale.
  assert (∀ r evs w2,
            heap w2 !! result = Some r → ¬ has_cache_metadata r →
            trace w2 = (trace w ++ evs)%list → List.filter is_setNX evs = [] →
            resourceCache w2 = resourceCache w →
            ∃ r evs,
              heap w2 !! result = Some r
              ∧ trace w2 = (trace w ++ evs)%list
              ∧ (has_cache_metadata r →
                   is_Some (Resp r)
                   ∧ List.filter is_setNX evs = [EvCacheSetNX url result]
                   ∧ resourceCache w2 = <[url := result]> (resourceCache w))
              ∧ (¬ has_cache_metadata r →
                   List.filter is_setNX evs = [] ∧ resourceCache w2 = resourceCache w)
              ∧ (∀ key p w0 q c,
                   resourceCache w0 !! key = Some q → heap w0 !! q = Some c →
                   revalidate c = false →
                   resourceCache_setNX key p w0 = w0)) as Hplain.
  { intros r evs w2 Hr Hno Htr Hf Hc. exists r, evs.
    repeat split; try done. apply resourceCache_setNX_keeps_live. }
  assert (∀ e w2 evs,
            trace w2 = (trace w ++ evs)%list → List.filter is_setNX evs = [] →
            resourceCache w2 = resourceCache w →
            ∃ r evs,
              heap (store result (set_Err e zeroResponse) w2) !! result = Some r
              ∧ trace (store result (set_Err e zeroResponse) w2) = (trace w ++ evs)%list
              ∧ (has_cache_metadata r →
                   is_Some (Resp r)
                   ∧ List.filter is_setNX evs = [EvCacheSetNX url result]
                   ∧ resourceCache (store result (set_Err e zeroResponse) w2)
                     = <[url := result]> (resourceCache w))
              ∧ (¬ has_cache_metadata r →
                   List.filter is_setNX evs = []
                   ∧ resourceCache (store result (set_Err e zeroResponse) w2)
                     = resourceCache w)
              ∧ (∀ key p w0 q c,
                   resourceCache w0 !! key = Some q → heap w0 !! q = Some c →
                   revalidate c = false →
                   resourceCache_setNX key p w0 = w0)) as Herr.
  { intros e w2 evs Htr Hf Hc.
    apply (Hplain (set_Err e zeroResponse) evs); try done.
    - simpl. apply lookup_insert_eq.
    - apply zeroResponse_no_metadata. }
  destruct hit.
  { intros [= <- <- <-]. by apply (Hplain r1 [EvCacheGet url]). }
  specialize (Hstale eq_refl).
  rewrite Hcache.
  destruct (marshalReqBody env rb reqBody) as [body|e].
  2:{ intros [= <- <- <-]. by apply (Herr e w1 [EvCacheGet url]). }
  destruct (checkMockup env url) as [[reqURL' cacheURL]|e] eqn:Hmock.
  2:{ intros [= <- <- <-]. by apply (Herr e w1 [EvCacheGet url]). }
  assert (cacheURL = url) as ->.
  { revert Hmock. unfold checkMockup. repeat case_match; by intros [= <- <-]. }
  destruct (attempts _ _ _ _ _ _ _ _ _ _ _) as [[[x rb2] w2]|] eqn:Ha; [|done].
  apply attempts_spec in Ha as [Hk [Hh2 Hc2 _ [evs2 [Ht2 Hevs2]]]].
  assert (List.filter is_setNX ([EvCacheGet url] ++ evs2) = []) as Hf2.
  { rewrite List.filter_app. simpl.
    apply (filter_none is_setNX loop_event); [by intros []|done]. }
  assert (trace w2 = (trace w ++ [EvCacheGet url] ++ evs2)%list) as Htr2.
  { by rewrite Ht2, Ht1, <- app_assoc. }
  destruct x as [e|r].
  { intros [= <- <- <-]. apply (Herr e w2 ([EvCacheGet url] ++ evs2)%list); congruence. }
  destruct (finish _ _ _ _ _ _ _ _) as [o' w3] eqn:Hfin.
  intros [= <- <- <-].
  eapply finish_cache in Hfin as (r' & Hr' & Hcases);
    [|by rewrite (kept_EnableCache _ _ Hk)|done|by rewrite Hh2|done].
  destruct Hcases as [(Hno & Ht3 & Hc3) | (Hyes & HR & ->)].
  { apply (Hplain r' ([EvCacheGet url] ++ evs2)%list); congruence. }
  destruct (resourceCache_setNX_frame url result
              (emit (EvCacheSetNX url result) (store result r' w2))) as (Ht3 & _ & _).
  exists r', (([EvCacheGet url] ++ evs2) ++ [EvCacheSetNX url result])%list.
  split; [done|]. split.
  { rewrite Ht3. cbn [trace emit store set_heap]. rewrite Htr2. by rewrite <- !app_assoc. }
  split; [|split; [done | apply resourceCache_setNX_keeps_live]].
  intros _. split; [done|]. split.
  { by rewrite List.filter_app, Hf2. }
  rewrite resourceCache_setNX_inserts; [simpl; congruence|].
  simpl. rewrite Hc2.
  destruct (resourceCache w1 !! url) as [q|]; [|done].
  destruct Hstale as [Hne Hst]. unfold stale in *. simpl.
  rewrite lookup_insert_ne by done. by rewrite Hh2.
Qed.
End cache_claim.

Lemma doRequest_caches_result_witness :
  ∃ o rb' w' r evs,
    doRequest Sample.env 1 Sample.rb0 "GET" "/x" None (apply_opts []) Sample.w0
      = Some (o, rb', w')
    ∧ heap w' !! new_addr Sample.w0 = Some r
    ∧ trace w' = evs
    ∧ has_cache_metadata r
    ∧ List.filter is_setNX evs = [EvCacheSetNX "http://api/x" (new_addr Sample.w0)]
    ∧ resourceCache w' = {["http://api/x" := new_addr Sample.w0]}.
Proof.
  destruct (doRequest Sample.env 1 Sample.rb0 "GET" "/x" None (apply_opts []) Sample.w0)
    as [[[o rb'] w']|] eqn:H.
  - destruct (doRequest_caches_result Sample.env 1 Sample.rb0 "GET" "/x" None
                (apply_opts []) Sample.w0 o rb' w')
      as (r & evs & Hr & Ht & Hyes & _).
    + reflexivity.
    + reflexivity.
    + exact H.
    + exists o, rb', w', r, evs.
      assert (has_cache_metadata r) as Hm.
      { vm_compute in H. injection H as <- <- <-.
        vm_compute in Hr. injection Hr as <-. left. eexists. reflexivity. }
      destruct (Hyes Hm) as (_ & Hf & Hc).
      split; [reflexivity|]. split; [exact Hr|]. split; [exact Ht|].
      split; [exact Hm|]. split; [exact Hf|]. exact Hc.
  - vm_compute in H. discriminate H.
Defined.

(** ** Termination of the attempt loop *)

Section termination.
Variable env : Env.

(** A strategy that never retries from attempt number [bound] on. *)
Lemma attempts_enough_fuel verb reqURL body cacheResp cacheURL opt (bound : Z) fuel :
  ∀ retries rb w,
    (∀ s, RetryStrategy rb = Some s →
          ∀ req resp err n, bound ≤ n → Retry (ShouldRetry s req resp err n) = false) →
    (Z.to_nat (bound - retries) < fuel)%nat →
    is_Some (attempts env verb reqURL body cacheResp cacheURL opt fuel retries rb w).
Proof.
  induction fuel as [|fuel IH]; intros retries rb w Hbound Hfuel; [lia|].
  simpl. destruct (newRequestErr env verb reqURL); [by eexists|].
  destruct (prepare _ _ _ _ _ _ _ _ _) as [[request rb1] w1] eqn:Hprep.
  apply prepare_spec in Hprep as (Hk & _ & _).
  assert (∀ s, RetryStrategy rb1 = Some s →
               ∀ req resp err n, bound ≤ n → Retry (ShouldRetry s req resp err n) = false)
    as Hbound1.
  { intros s Hs. apply Hbound. by rewrite <- (kept_RetryStrategy _ _ Hk). }
  destruct (RetryStrategy rb1) as [s|] eqn:Hs; [|by eexists].
  destruct (Retry _) eqn:Hretry; [|by eexists].
  assert (retries < bound) as Hlt.
  { destruct (Z.lt_ge_cases retries bound) as [?|Hge]; [done|].
    rewrite (Hbound1 s eq_refl _ _ _ _ Hge) in Hretry. done. }
  assert (Z.to_nat (bound - (retries + 1)) < fuel)%nat as Hfuel' by lia.
  assert (∀ s0, RetryStrategy rb1 = Some s0 →
                ∀ req resp err n, bound ≤ n → Retry (ShouldRetry s0 req resp err n) = false)
    as Hb by (intros s0 Hs0; apply Hbound1; congruence).
  destruct (circuitBreaker rb1); [by apply IH|].
  destruct (limiterAdmits env _); [by apply IH | by eexists].
Qed.

(** With such a strategy, or none, [bound] + 1 attempts are enough for
    [DoRequest] to finish. *)
Lemma DoRequest_enough_fuel (bound : Z) fuel rb verb reqURL reqBody opts w :
  (∀ s, RetryStrategy rb = Some s →
        ∀ req resp err n, bound ≤ n → Retry (ShouldRetry s req resp err n) = false) →
  (Z.to_nat bound < fuel)%nat →
  is_Some (DoRequest env fuel rb verb reqURL reqBody opts w).
Proof.
  intros Hbound Hfuel.
  assert (∀ w0, is_Some (doRequest env fuel rb verb reqURL reqBody (apply_opts opts) w0))
    as Hrun.
  { intros w0. unfold doRequest.
    destruct (cacheLookup _ _ _ _ _) as [[cr hit] w1].
    destruct hit; [by eexists|].
    set (rb1 := if EnableCache rb then rb else _).
    assert (RetryStrategy rb1 = RetryStrategy rb) as Hs.
    { subst rb1. by destruct (EnableCache rb). }
    clearbody rb1.
    destruct (marshalReqBody env rb1 reqBody) as [body|e]; [|by eexists].
    destruct (checkMockup env _) as [[reqURL' cacheURL]|e]; [|by eexists].
    destruct (attempts_enough_fuel verb reqURL' body cr cacheURL (apply_opts opts)
                bound fuel 0 rb1 w1) as [[[x rb2] w2] ->].
    - intros s H. apply Hbound. congruence.
    - by rewrite Z.sub_0_r.
    - destruct x; [by eexists|]. destruct (finish _ _ _ _ _ _ _ _). by eexists. }
  unfold DoRequest. destruct (circuitBreaker rb) as [cb|].
  - destruct (Allow cb (trace w)) as [after [e|]]; [by eexists|].
    destruct (Hrun (emit EvAllow w)) as [[[o rb1] w1] ->].
    destruct (complete _ _ _). by eexists.
  - destruct (Hrun w) as [[[o rb1] w1] ->].
    destruct (complete _ _ _). by eexists.
Qed.
End termination.

(** ** The cache stays well formed *)

Section cache_invariant.
Variable env : Env.

Lemma finish_heap rb verb cacheURL cacheResp result r w o w' :
  finish env rb verb cacheURL cacheResp result r w = (o, w') →
  (∀ q, q ≠ result → heap w' !! q = heap w !! q) ∧
  (resourceCache w' = resourceCache w ∨
   ∃ res, resourceCache w' = <[cacheURL := result]> (resourceCache w) ∧
     heap w' !! result = Some res ∧ is_Some (Resp res)).
Proof.
  unfold finish.
  assert (∀ x, (∀ q, q ≠ result → heap (store result x w) !! q = heap w !! q)) as Hst.
  { intros x q Hq. simpl. by rewrite lookup_insert_ne. }
  destruct r as [h|h e]; [|intros [= <- <-]; split; [apply Hst | by left]].
  destruct (BodyErr h); [intros [= <- <-]; split; [apply Hst | by left]|].
  destruct (EnableCache rb && (StatusCode h =? StatusNotModified));
    [intros [= <- <-]; split; [done | by left]|].
  destruct (readBody _ _ _ _) as [res nilReader] eqn:H1.
  destruct (setTTL _ _ _) as [ttl_ res1] eqn:H2.
  destruct (setLastModified _ _) as [lm_ res2] eqn:H3.
  destruct (setETag _ _) as [etag_ res3] eqn:H4.
  destruct (extraction_flags _ _ _ _ _ _ _ _ _ _ _ _ H1 H2 H3 H4) as [_ HR].
  set (res4 := if negb ttl_ && (lm_ || etag_) then set_revalidate true res3 else res3).
  assert (Resp res4 = Some h) as HR4.
  { subst res4. by destruct (negb ttl_ && (lm_ || etag_)). }
  destruct (EnableCache rb && matchVerbs verb readVerbs && (ttl_ || lm_ || etag_));
    intros [= <- <-]; [|split; [apply Hst | by left]].
  destruct (resourceCache_setNX_frame cacheURL result
              (emit (EvCacheSetNX cacheURL result) (store result res4 w)))
    as (_ & Hh & _).
  split; [intros q Hq; rewrite Hh; by apply Hst|].
  unfold resourceCache_setNX in *. simpl in *.
  destruct (resourceCache w !! cacheURL) as [q0|]; [destruct (stale _ q0)|]; simpl.
  - right. exists res4. by rewrite lookup_insert_eq, HR4.
  - by left.
  - right. exists res4. by rewrite lookup_insert_eq, HR4.
Qed.

Lemma doRequest_cache_ok fuel rb verb reqURL reqBody opt w o rb' w' :
  cache_ok w →
  doRequest env fuel rb verb reqURL reqBody opt w = Some (o, rb', w') →
  cache_ok w'.
Proof.
  intros Hok. unfold doRequest.
  set (result := new_addr w).
  destruct (cacheLookup _ _ _ _ _) as [[cr hit] w1] eqn:Hl.
  assert (∀ q r, heap w !! q = Some r → is_Some (Resp r) →
            q ≠ result ∧ ∃ r', heap w1 !! q = Some r' ∧ is_Some (Resp r')) as Hkept.
  { intros q r Hq HR.
    assert (q ≠ result) as Hne.
    { intros ->. pose proof (new_addr_fresh w). subst result. congruence. }
    split; [done|].
    destruct cr as [p|].
    - apply cacheLookup_found in Hl as (c & c' & _ & Hc & -> & HR' & _). simpl in *.
      destruct (decide (q = p)) as [->|Hqp].
      + rewrite lookup_insert_eq. exists c'. split; [done|].
        rewrite lookup_insert_ne in Hc by done. congruence.
      + rewrite !lookup_insert_ne by done. eauto.
    - apply cacheLookup_none in Hl as [_ ->]. simpl.
      rewrite lookup_insert_ne by done. eauto. }
  assert (resourceCache w1 = resourceCache w) as Hc1.
  { by apply cacheLookup_trace in Hl as (_ & ? & _). }
  assert (∀ w2, resourceCache w2 = resourceCache w →
                (∀ q, q ≠ result → heap w2 !! q = heap w1 !! q) → cache_ok w2) as Hsame.
  { intros w2 Hc Hh url q Hq. rewrite Hc in Hq.
    destruct (Hok _ _ Hq) as (r & Hr & HR).
    destruct (Hkept _ _ Hr HR) as (Hne & r' & Hr' & HR').
    exists r'. by rewrite Hh. }
  assert (∀ e w2, resourceCache w2 = resourceCache w1 → heap w2 = heap w1 →
                  cache_ok (store result (set_Err e zeroResponse) w2)) as Herr.
  { intros e w2 Hc Hh. apply Hsame; simpl; [congruence|].
    intros q Hq. by rewrite lookup_insert_ne, Hh. }
  destruct hit; [intros [= <- <- <-]; by apply Hsame|].
  destruct (marshalReqBody env _ reqBody) as [body|e]; [|intros [= <- <- <-]; by apply Herr].
  destruct (checkMockup env _) as [[reqURL' cacheURL]|e]; [|intros [= <- <- <-]; by apply Herr].
  destruct (attempts _ _ _ _ _ _ _ _ _ _ _) as [[[x rb2] w2]|] eqn:Ha; [|done].
  apply attempts_spec in Ha as [_ [Hh2 Hc2 _ _]].
  destruct x as [e|r]; [intros [= <- <- <-]; by apply Herr|].
  destruct (finish _ _ _ _ _ _ _ _) as [o' w3] eqn:Hfin.
  intros [= <- <- <-].
  apply finish_heap in Hfin as [Hh3 [Hc3 | (res & Hc3 & Hres & HR)]].
  - apply Hsame; [congruence|]. intros q Hq. by rewrite Hh3, Hh2.
  - intros url q Hq. rewrite Hc3, Hc2, Hc1 in Hq.
    destruct (decide (cacheURL = url)) as [->|Hne].
    + rewrite lookup_insert_eq in Hq. injection Hq as <-. eauto.
    + rewrite lookup_insert_ne in Hq by done.
      destruct (Hok _ _ Hq) as (r0 & Hr0 & HR0).
      destruct (Hkept _ _ Hr0 HR0) as (Hneq & r' & Hr' & HR').
      exists r'. by rewrite Hh3, Hh2.
Qed.

(** Starting from an empty cache, every cache that requests leave behind
    holds only Responses that came off the network. *)
Lemma DoRequest_cache_ok fuel rb verb reqURL reqBody opts w o rb' w' :
  cache_ok w →
  DoRequest env fuel rb verb reqURL reqBody opts w = Some (o, rb', w') →
  cache_ok w'.
Proof.
  intros Hok. unfold DoRequest.
  assert (∀ after w0 o1 rb1 w1,
            cache_ok w0 →
            doRequest env fuel rb verb reqURL reqBody (apply_opts opts) w0 = Some (o1, rb1, w1) →
            (let '(o2, w2) := complete after o1 w1 in Some (o2, rb1, w2)) = Some (o, rb', w') →
            cache_ok w') as Hrun.
  { intros after w0 o1 rb1 w1 H0 Hd. apply doRequest_cache_ok in Hd; [|done].
    destruct (complete after o1 w1) as [o2 w2] eqn:Hc. intros [= <- <- <-].
    by apply complete_spec in Hc as [-> | (cb & s & _ & ->)]. }
  destruct (circuitBreaker rb) as [cb|].
  - destruct (Allow cb (trace w)) as [after [e|]].
    + intros [= <- <- <-]. intros url q Hq. simpl in Hq.
      destruct (Hok _ _ Hq) as (r & Hr & HR). exists r. simpl.
      rewrite lookup_insert_ne; [done|].
      intros <-. pose proof (new_addr_fresh (emit EvAllow w)) as Hf. simpl in Hf. congruence.
    + destruct (doRequest _ _ _ _ _ _ _ _) as [[[o1 rb1] w1]|] eqn:Hd; [|done].
      by apply (Hrun after (emit EvAllow w) o1 rb1 w1).
  - destruct (doRequest _ _ _ _ _ _ _ _) as [[[o1 rb1] w1]|] eqn:Hd; [|done].
    by apply (Hrun None w o1 rb1 w1).
Qed.

Lemma cache_ok_empty : cache_ok (mkWorld ∅ ∅ ∅ ∅ []).
Proof. intros url q Hq. simpl in Hq. by rewrite lookup_empty in Hq. Qed.
End cache_invariant.

(** * More of the engine *)

(** ** The shape of a run *)

Section run_shape.
Variable env : Env.

(** [DoRequest] is either the denial, or [doRequest] in the world after
    [Allow] followed by the completion. *)
Lemma DoRequest_cases fuel rb verb reqURL reqBody opts w o rb' w' :
  DoRequest env fuel rb verb reqURL reqBody opts w = Some (o, rb', w') →
  (∃ cb after e,
     circuitBreaker rb = Some cb ∧ Allow cb (trace w) = (after, Some e) ∧
     o = Returned (Some (new_addr (emit EvAllow w))) ∧ rb' = rb ∧
     w' = store (new_addr (emit EvAllow w)) (deniedResponse e) (emit EvAllow w))
  ∨ (∃ w0 after o1 w1,
       (circuitBreaker rb = None ∧ w0 = w ∧ after = None
        ∨ ∃ cb, circuitBreaker rb = Some cb ∧ Allow cb (trace w) = (after, None)
                ∧ w0 = emit EvAllow w) ∧
       doRequest env fuel rb verb reqURL reqBody (apply_opts opts) w0 = Some (o1, rb', w1) ∧
       complete after o1 w1 = (o, w')).
Proof.
  unfold DoRequest. destruct (circuitBreaker rb) as [cb|] eqn:Hcb.
  - destruct (Allow cb (trace w)) as [after [e|]] eqn:Ha.
    + intros [= <- <- <-]. left. by exists cb, after, e.
    + destruct (doRequest _ _ _ _ _ _ _ _) as [[[o1 rb1] w1]|] eqn:Hd; [|done].
      destruct (complete after o1 w1) as [o2 w2] eqn:Hc. intros [= <- <- <-].
      right. exists (emit EvAllow w), after, o1, w1. split; [right; by exists cb|done].
  - destruct (doRequest _ _ _ _ _ _ _ _) as [[[o1 rb1] w1]|] eqn:Hd; [|done].
    destruct (complete None o1 w1) as [o2 w2] eqn:Hc. intros [= <- <- <-].
    right. exists w, None, o1, w1. split; [by left|done].
Qed.

(** [doRequest] is the cache lookup, then possibly the loop of attempts,
    then possibly [finish]. *)
Lemma doRequest_cases fuel rb verb reqURL reqBody opt w o rb' w' :
  doRequest env fuel rb verb reqURL reqBody opt w = Some (o, rb', w') →
  let url := BaseURL rb +:+ reqURL in
  let result := new_addr w in
  let rb1 := if EnableCache rb then rb else without_conditional_headers rb in
  ∃ cr hit w1,
    cacheLookup env rb verb url (store result zeroResponse w) = (cr, hit, w1) ∧
    ((hit = true ∧ o = Returned cr ∧ rb' = rb ∧ w' = w1)
     ∨ (hit = false ∧ ∃ e, o = Returned (Some result) ∧ rb' = rb1 ∧
          w' = store result (set_Err e zeroResponse) w1 ∧
          (marshalReqBody env rb1 reqBody = inr e ∨
           (∃ body, marshalReqBody env rb1 reqBody = inl body) ∧ checkMockup env url = inr e))
     ∨ (hit = false ∧ ∃ body reqURL' x w2,
          marshalReqBody env rb1 reqBody = inl body ∧
          checkMockup env url = inl (reqURL', url) ∧
          attempts env verb reqURL' body cr url opt fuel 0 rb1 w1 = Some (x, rb', w2) ∧
          match x with
          | NewRequestFailed e =>
              o = Returned (Some result) ∧ w' = store result (set_Err e zeroResponse) w2
          | Attempted r => finish env rb' verb url cr result r w2 = (o, w')
          end)).
Proof.
  intros H url result rb1. unfold doRequest in H.
  fold url result in H.
  destruct (cacheLookup env rb verb url (store result zeroResponse w))
    as [[cr hit] w1] eqn:Hl.
  exists cr, hit, w1. split; [done|].
  destruct hit; [left; by injection H as <- <- <-|]. right.
  fold (without_conditional_headers rb) in H. fold rb1 in H.
  destruct (marshalReqBody env rb1 reqBody) as [body|e] eqn:Hm.
  2:{ left. split; [done|]. exists e. injection H as <- <- <-. by repeat split; eauto. }
  destruct (checkMockup env url) as [[reqURL' cacheURL]|e] eqn:Hmock.
  2:{ left. split; [done|]. exists e. injection H as <- <- <-. repeat split; eauto. }
  assert (cacheURL = url) as ->.
  { revert Hmock. unfold checkMockup. repeat case_match; by intros [= <- <-]. }
  right. split; [done|].
  destruct (attempts _ _ _ _ _ _ _ _ _ _ _) as [[[x rb2] w2]|] eqn:Ha; [|done].
  destruct x as [e|r].
  - injection H as <- <- <-. by exists body, reqURL', (NewRequestFailed e), w2.
  - destruct (finish _ _ _ _ _ _ _ _) as [o' w3] eqn:Hfin. injection H as <- <- <-.
    by exists body, reqURL', (Attempted r), w2.
Qed.
End run_shape.

(** ** Requests that bypass the cache *)

Section bypass.
Variable env : Env.

Lemma finish_bypass rb verb cacheURL cacheResp result r w o w' :
  EnableCache rb && matchVerbs verb readVerbs = false →
  finish env rb verb cacheURL cacheResp result r w = (o, w') →
  trace w' = trace w ∧ resourceCache w' = resourceCache w.
Proof.
  intros Hoff. unfold finish.
  destruct r as [h|h e]; [|by intros [= <- <-]].
  destruct (BodyErr h); [by intros [= <- <-]|].
  destruct (EnableCache rb && (StatusCode h =? StatusNotModified)); [by intros [= <- <-]|].
  destruct (readBody _ _ _ _) as [res nilReader].
  destruct (setTTL _ _ _) as [ttl_ res1].
  destruct (setLastModified _ _) as [lm_ res2].
  destruct (setETag _ _) as [etag_ res3].
  rewrite Hoff. by intros [= <- <-].
Qed.

Lemma cacheLookup_bypass rb verb url w :
  EnableCache rb && matchVerbs verb readVerbs = false →
  cacheLookup env rb verb url w = (None, false, w).
Proof. intros H. unfold cacheLookup. by rewrite H. Qed.

Lemma doRequest_bypasses_cache fuel rb verb reqURL reqBody opt w o rb' w' :
  EnableCache rb && matchVerbs verb readVerbs = false →
  doRequest env fuel rb verb reqURL reqBody opt w = Some (o, rb', w') →
  resourceCache w' = resourceCache w
  ∧ trace_by loop_event w w'
  ∧ (∀ q, q ≠ new_addr w → heap w' !! q = heap w !! q).
Proof.
  intros Hoff H. apply doRequest_cases in H.
  destruct H as (cr & hit & w1 & Hl & H).
  rewrite cacheLookup_bypass in Hl by done. injection Hl as <- <- <-.
  assert (∀ e w2, extends loop_event (store (new_addr w) zeroResponse w) w2 →
            resourceCache (store (new_addr w) (set_Err e zeroResponse) w2) = resourceCache w
            ∧ trace_by loop_event w (store (new_addr w) (set_Err e zeroResponse) w2)
            ∧ (∀ q, q ≠ new_addr w →
                 heap (store (new_addr w) (set_Err e zeroResponse) w2) !! q = heap w !! q))
    as Herr.
  { intros e w2 [Hh Hc _ Ht]. simpl in *. split; [done|]. split; [done|].
    intros q Hq. rewrite lookup_insert_ne by done. rewrite Hh. by rewrite lookup_insert_ne. }
  destruct H as [(Hhit & _) | [(_ & e & -> & -> & -> & _) | (_ & body & u & x & w2 & _ & _ & Ha & Hx)]].
  - done.
  - apply Herr, extends_refl.
  - apply attempts_spec in Ha as [Hk He].
    destruct x as [e|r]; [destruct Hx as [-> ->]; by apply Herr|].
    assert (EnableCache rb' && matchVerbs verb readVerbs = false) as Hoff'.
    { rewrite (kept_EnableCache _ _ Hk). by destruct (EnableCache rb) eqn:E; simpl; rewrite ?E. }
    pose proof (finish_heap _ _ _ _ _ _ _ _ _ _ Hx) as [Hh3 _].
    apply finish_bypass in Hx as [Ht3 Hc3]; [|done].
    destruct He as [Hh Hc _ Ht]. simpl in *.
    split; [congruence|]. split.
    + destruct Ht as (evs & Ht & Hevs). exists evs. by rewrite Ht3.
    + intros q Hq. rewrite Hh3 by done. rewrite Hh. by rewrite lookup_insert_ne.
Qed.

(** X1. With caching off, or for a verb that is not a read verb,
    [DoRequest] leaves the cache alone: it maps every URL as before, no
    call of the cache appears among the events of the run, and every
    Response that existed before is unchanged. *)
Theorem DoRequest_bypasses_cache (fuel : nat) (rb : RequestBuilder)
    (verb reqURL : string) (reqBody : option GoValue) (opts : list Option)
    (w : World) (o : Outcome) (rb' : RequestBuilder) (w' : World) :
  EnableCache rb = false ∨ matchVerbs verb readVerbs = false →
  DoRequest env fuel rb verb reqURL reqBody opts w = Some (o, rb', w') →
  resourceCache w' = resourceCache w
  ∧ (∃ evs, trace w' = (trace w ++ evs)%list ∧ count_events is_cache_access evs = 0%nat)
  ∧ (∀ q r, heap w !! q = Some r → heap w' !! q = Some r).
Proof.
  intros Hoff H.
  assert (EnableCache rb && matchVerbs verb readVerbs = false) as Hoff'.
  { destruct Hoff as [-> | ->]; [done | apply andb_false_r]. }
  assert (∀ e, (loop_event e || is_after e || match e with EvAllow => true | _ => false end) = true →
               is_cache_access e = false) as Hnot by (by intros []).
  apply DoRequest_cases in H
    as [(cb & after & e & _ & _ & -> & -> & ->) | (w0 & after & o1 & w1 & Hw0 & Hd & Hc)].
  - simpl. split; [done|]. split; [by exists [EvAllow]|].
    intros q r Hq. rewrite lookup_insert_ne; [done|].
    intros <-. pose proof (new_addr_fresh (emit EvAllow w)) as Hf. simpl in Hf. congruence.
  - apply doRequest_bypasses_cache in Hd as (Hc1 & (evs & Ht1 & Hevs) & Hh1); [|done].
    assert (resourceCache w0 = resourceCache w ∧ heap w0 = heap w
            ∧ ∃ pre, trace w0 = (trace w ++ pre)%list ∧ count_events is_cache_access pre = 0%nat)
      as (Hc0 & Hh0 & pre & Ht0 & Hpre).
    { destruct Hw0 as [(_ & -> & _) | (cb & _ & _ & ->)]; simpl.
      - repeat split; try done. exists []. by rewrite app_nil_r.
      - repeat split; try done. by exists [EvAllow]. }
    assert (count_events is_cache_access evs = 0%nat) as Hevs0.
    { apply (count_events_none _ loop_event); [by intros []|done]. }
    assert (∀ q r, heap w !! q = Some r → heap w1 !! q = Some r) as Hheap.
    { intros q r Hq. rewrite Hh1; [by rewrite Hh0|].
      intros ->. pose proof (new_addr_fresh w0) as Hf. rewrite Hh0 in Hf. congruence. }
    apply complete_spec in Hc as [-> | (cb & s & _ & ->)]; simpl.
    + split; [congruence|]. split; [|done].
      exists (pre ++ evs)%list. rewrite Ht1, Ht0, <- app_assoc, count_events_app. split; [done|lia].
    + split; [congruence|]. split; [|done].
      exists (pre ++ evs ++ [EvAfter cb s])%list.
      rewrite Ht1, Ht0, <- !app_assoc, !count_events_app. split; [done|].
      rewrite Hpre, Hevs0. done.
Qed.
End bypass.

Lemma DoRequest_bypasses_cache_witness :
  ∃ o rb' w',
    DoRequest Sample.env304 1 Sample.rb0 "POST" "/doc" None [] Sample.w_stale = Some (o, rb', w')
    ∧ resourceCache w' = resourceCache Sample.w_stale
    ∧ heap w' !! 5%nat = Some Sample.entry.
Proof.
  destruct (DoRequest Sample.env304 1 Sample.rb0 "POST" "/doc" None [] Sample.w_stale)
    as [[[o rb'] w']|] eqn:H.
  - exists o, rb', w'. split; [reflexivity|].
    destruct (DoRequest_bypasses_cache Sample.env304 1 Sample.rb0 "POST" "/doc" None []
                Sample.w_stale o rb' w') as (Hc & _ & Hh).
    + right. reflexivity.
    + exact H.
    + split; [exact Hc|]. apply Hh. vm_compute. reflexivity.
  - vm_compute in H. discriminate H.
Defined.

(** ** Headers of the requests sent *)

Section header_facts.
Variable canon : string → string.

Lemma header_get_set h k v k' :
  header_get canon (header_set canon h k v) k'
  = if decide (canon k = canon k') then v else header_get canon h k'.
Proof.
  unfold header_get, header_set. case_decide as Hk.
  - by rewrite Hk, lookup_insert_eq.
  - by rewrite lookup_insert_ne.
Qed.

(** [Add] appends, so [Get], which reads the first value, keeps what it
    read before when that was not empty. *)
Lemma header_get_add_keeps h k v k' :
  header_get canon h k' ≠ "" →
  header_get canon (header_add canon h k v) k' = header_get canon h k'.
Proof.
  unfold header_get, header_add. intros Hne.
  destruct (decide (canon k = canon k')) as [Hk | Hk].
  - rewrite Hk, lookup_insert_eq.
    destruct (h !! canon k') as [[|v0 vs]|]; simpl in *; done.
  - by rewrite lookup_insert_ne.
Qed.
End header_facts.

Section request_headers.
Variable env : Env.

Lemma req_get_set k v r k' :
  req_get env k' (req_set env k v r)
  = if decide (canon env k = canon env k') then v else req_get env k' r.
Proof. unfold req_get, req_set. simpl. apply header_get_set. Qed.

Lemma req_get_set_eq k v r : req_get env k (req_set env k v r) = v.
Proof. rewrite req_get_set. by rewrite decide_True. Qed.

Lemma req_get_add_keeps k v r k' :
  req_get env k' r ≠ "" → req_get env k' (req_add env k v r) = req_get env k' r.
Proof. unfold req_get, req_add. simpl. apply header_get_add_keeps. Qed.

(** The headers of the options are added, so they never replace what [Get]
    reads for a header that is already set. *)
Lemma copyOptHeaders_keeps opt req k :
  req_get env k req ≠ "" →
  req_get env k (copyOptHeaders env opt req) = req_get env k req.
Proof.
  intros Hne. unfold copyOptHeaders.
  apply (map_fold_weak_ind (λ (acc : Request) _, req_get env k acc = req_get env k req)).
  - done.
  - intros i x m r _ IH. rewrite req_get_add_keeps; [done|]. by rewrite IH.
Qed.

(** A forwarded tracing header never changes a header that is already set:
    when the values differ the request keeps its own. *)
Lemma copyTraceHeaders_keeps opt req w k :
  req_get env k req ≠ "" →
  req_get env k (copyTraceHeaders env opt req w).1 = req_get env k req.
Proof.
  intros Hne. unfold copyTraceHeaders.
  apply (map_fold_weak_ind
           (λ (acc : Request * World) _, req_get env k acc.1 = req_get env k req)).
  - done.
  - intros header x m [r w1] _ IH. simpl in IH.
    destruct (negb (String.eqb (req_get env header r) "")
              && negb (String.eqb (req_get env header r)
                         (header_get (canon env) (optForwarded opt) header))) eqn:Hc;
      simpl; [done|].
    rewrite req_get_set. case_decide as Hk; [|done].
    assert (req_get env header r = req_get env k r) as Hsame.
    { unfold req_get, header_get. by rewrite Hk. }
    rewrite Hsame, IH in Hc.
    apply andb_false_iff in Hc as [Hc | Hc].
    + apply negb_false_iff, String.eqb_eq in Hc. congruence.
    + apply negb_false_iff, String.eqb_eq in Hc. congruence.
Qed.

Lemma getClient_poolName rb : poolName (getClient env rb) = poolName rb.
Proof.
  unfold getClient. destruct (clientMtxOnce rb); [done|].
  destruct (getTransport env rb) as [t rb1] eqn:Ht.
  by apply getTransport_kept in Ht as [[_ ->] | (cp & _ & [[_ ->] | [cp' ->]])].
Qed.

Lemma effective_pool_nonempty rb : effective_pool env rb ≠ "".
Proof.
  unfold effective_pool. destruct (String.eqb_spec (poolName rb) ""); [|done].
  apply getCallerFile_nonempty.
Qed.

(** The events of [prepare] are its two metrics. *)
Lemma prepare_events verb reqURL body cacheResp cacheURL opt rb w request rb' w' :
  prepare env verb reqURL body cacheResp cacheURL opt rb w = (request, rb', w') →
  extends prepare_event w w'.
Proof.
  unfold prepare.
  assert (∀ rq w0 rq' w1, copyTraceHeaders env opt rq w0 = (rq', w1) →
            extends prepare_event w0 w1) as Hcopy.
  { intros rq w0 rq' w1. unfold copyTraceHeaders. revert rq' w1.
    apply (map_fold_weak_ind (λ (acc : Request * World) _,
             ∀ rq' w1, acc = (rq', w1) → extends prepare_event w0 w1)).
    - intros ?? [= <- <-]. apply extends_refl.
    - intros i x m [r w2] _ IH rq' w1. specialize (IH r w2 eq_refl).
      case_match; intros [= <- <-]; [|done].
      eapply extends_trans; [done | by apply extends_emit]. }
  destruct (String.eqb (poolName rb) "").
  - destruct (copyTraceHeaders _ _ _ _) as [rq w1] eqn:Hc. intros [= <- <- <-].
    apply Hcopy in Hc. eapply extends_trans; [|exact Hc].
    unfold sendRestMetrics. case_decide; [apply extends_refl|].
    eapply extends_trans; [apply extends_set_poolMap | by apply extends_emit].
  - destruct (copyTraceHeaders _ _ _ _) as [rq w1] eqn:Hc. intros [= <- <- <-].
    by apply Hcopy in Hc.
Qed.

(** The pool header of a prepared request. *)
Lemma prepare_pool verb reqURL body cacheResp cacheURL opt rb w request rb' w' :
  prepare env verb reqURL body cacheResp cacheURL opt rb w = (request, rb', w') →
  req_get env restClientPoolName request = effective_pool env rb
  ∧ poolName rb' = effective_pool env rb.
Proof.
  unfold prepare, effective_pool.
  pose proof (getCallerFile_nonempty env) as Hcf.
  destruct (String.eqb_spec (poolName rb) "") as [Hp | Hp].
  - destruct (copyTraceHeaders _ _ _ _) as [rq w1] eqn:Hc. intros [= <- <- <-].
    rewrite getClient_poolName. simpl. split; [|done].
    change rq with (rq, w1).1. rewrite <- Hc.
    rewrite copyTraceHeaders_keeps, copyOptHeaders_keeps, req_get_set_eq; try done.
    + by rewrite req_get_set_eq.
    + by rewrite copyOptHeaders_keeps, req_get_set_eq; rewrite ?req_get_set_eq.
  - destruct (copyTraceHeaders _ _ _ _) as [rq w1] eqn:Hc. intros [= <- <- <-].
    rewrite getClient_poolName. split; [|done].
    change rq with (rq, w1).1. rewrite <- Hc.
    rewrite copyTraceHeaders_keeps, copyOptHeaders_keeps, req_get_set_eq; try done.
    + by rewrite req_get_set_eq.
    + by rewrite copyOptHeaders_keeps, req_get_set_eq; rewrite ?req_get_set_eq.
Qed.
End request_headers.

Section every_request.
Variable env : Env.

Lemma Forall_not_request (Q : Request → Prop) (P : Event → bool) evs :
  (∀ e, P e = true → is_network e = false) → forallb P evs = true →
  Forall (on_requests Q) evs.
Proof.
  intros HP Hevs. apply Forall_forall. intros e He.
  assert (P e = true) as Hpe.
  { eapply forallb_forall in Hevs; [done|]. by apply list_elem_of_In. }
  apply HP in Hpe. by destruct e.
Qed.

(** A property that every prepared request has, for builders satisfying
    [I] and worlds with the heap [h0], holds of every request the loop
    sends. *)
Lemma attempts_requests (I : RequestBuilder → Prop) (Q : Request → Prop)
    verb reqURL body cacheResp cacheURL opt (h0 : gmap nat Response) :
  (∀ rb0 w0 request rb1 w1,
     I rb0 → heap w0 = h0 →
     prepare env verb reqURL body cacheResp cacheURL opt rb0 w0 = (request, rb1, w1) →
     Q request ∧ I rb1) →
  ∀ fuel retries rb w x rb' w',
    I rb → heap w = h0 →
    attempts env verb reqURL body cacheResp cacheURL opt fuel retries rb w = Some (x, rb', w') →
    ∃ evs, trace w' = (trace w ++ evs)%list ∧ Forall (on_requests Q) evs ∧ I rb'.
Proof.
  intros Hprep. induction fuel as [|fuel IH]; intros retries rb w x rb' w' HI Hh; simpl; [done|].
  destruct (newRequestErr env verb reqURL).
  { intros [= <- <- <-]. exists []. by rewrite app_nil_r. }
  destruct (prepare _ _ _ _ _ _ _ _ _) as [[request rb1] w1] eqn:Hp.
  destruct (Hprep _ _ _ _ _ HI Hh Hp) as [HQ HI1].
  apply prepare_events in Hp as [Hh1 _ _ (evs1 & Ht1 & Hevs1)].
  apply (Forall_not_request Q) in Hevs1; [|by intros []].
  set (r := clientDo env (trace w1) request).
  assert (∃ evs2, trace (recordApiCall rb1 r retries (emit (EvClientDo request) w1))
                  = (trace w ++ evs2)%list ∧ Forall (on_requests Q) evs2
                  ∧ heap (recordApiCall rb1 r retries (emit (EvClientDo request) w1)) = h0)
    as (evs2 & Ht2 & Hevs2 & Hh2).
  { unfold recordApiCall. destruct (DisableApiCallMetrics _); simpl.
    - exists (evs1 ++ [EvClientDo request])%list. rewrite Ht1, <- app_assoc.
      split; [done|]. split; [|congruence].
      apply Forall_app. split; [done|]. by constructor.
    - eexists (evs1 ++ [EvClientDo request; _])%list. rewrite Ht1, <- !app_assoc.
      split; [done|]. split; [|congruence].
      apply Forall_app. split; [done|]. by repeat constructor. }
  set (w2 := recordApiCall rb1 r retries (emit (EvClientDo request) w1)) in *.
  assert (∀ w3 n x0 rb0 w0 evs3,
            trace w3 = (trace w2 ++ evs3)%list → Forall (on_requests Q) evs3 → heap w3 = h0 →
            attempts env verb reqURL body cacheResp cacheURL opt fuel n rb1 w3 = Some (x0, rb0, w0) →
            ∃ evs, trace w0 = (trace w ++ evs)%list ∧ Forall (on_requests Q) evs ∧ I rb0)
    as Hnext.
  { intros w3 n x0 rb0 w0 evs3 Ht3 Hevs3 Hh3 Ha.
    apply IH in Ha as (evs4 & Ht4 & Hevs4 & HI4); [|done..].
    exists (evs2 ++ evs3 ++ evs4)%list. rewrite Ht4, Ht3, Ht2, <- !app_assoc.
    split; [done|]. split; [|done]. by repeat (apply Forall_app; split). }
  destruct (RetryStrategy rb1) as [strategy|];
    [|intros [= <- <- <-]; by exists evs2].
  set (rr := ShouldRetry strategy request (do_resp r) (do_err r) retries).
  destruct (Retry rr); [|intros [= <- <- <-]; by exists evs2].
  destruct (circuitBreaker rb1).
  - apply (Hnext _ _ _ _ _ (retry_events r rr)); [apply retryFunc_trace| |].
    + unfold retry_events. destruct r; by repeat constructor.
    + unfold retryFunc. by destruct r.
  - destruct (limiterAdmits env (trace w2)).
    + apply (Hnext _ _ _ _ _ (EvLimiterAction true :: retry_events r rr)).
      * rewrite retryFunc_trace. simpl. by rewrite <- app_assoc.
      * unfold retry_events. destruct r; by repeat constructor.
      * unfold retryFunc. by destruct r.
    + intros [= <- <- <-].
      unfold recordRetryBreak. destruct (DisableApiCallMetrics _); simpl.
      * exists (evs2 ++ [EvLimiterAction false])%list. rewrite Ht2, <- app_assoc.
        split; [done|]. split; [|done]. apply Forall_app. split; [done|]. by constructor.
      * eexists (evs2 ++ [EvLimiterAction false; _])%list. rewrite Ht2, <- !app_assoc.
        split; [done|]. split; [|done]. apply Forall_app. split; [done|]. by repeat constructor.
Qed.

(** The same for a whole [DoRequest], for a property of prepared requests
    that does not depend on the cache entry. *)
Lemma DoRequest_requests (I : RequestBuilder → Prop) (Q : Request → Prop)
    fuel rb verb reqURL reqBody opts w o rb' w' :
  (∀ verb0 u body cr cu opt rb0 w0 request rb1 w1,
     I rb0 →
     prepare env verb0 u body cr cu opt rb0 w0 = (request, rb1, w1) →
     Q request ∧ I rb1) →
  I rb → I (without_conditional_headers rb) →
  DoRequest env fuel rb verb reqURL reqBody opts w = Some (o, rb', w') →
  ∃ evs, trace w' = (trace w ++ evs)%list ∧ Forall (on_requests Q) evs.
Proof.
  intros Hprep HI HI' H.
  apply DoRequest_cases in H
    as [(cb & after & e & _ & _ & -> & -> & ->) | (w0 & after & o1 & w1 & Hw0 & Hd & Hc)].
  { exists [EvAllow]. split; [done|]. by repeat constructor. }
  assert (∃ pre, trace w0 = (trace w ++ pre)%list ∧ Forall (on_requests Q) pre)
    as (pre & Ht0 & Hpre).
  { destruct Hw0 as [(_ & -> & _) | (cb & _ & _ & ->)].
    - exists []. by rewrite app_nil_r.
    - exists [EvAllow]. split; [done|]. by repeat constructor. }
  assert (∃ evs, trace w1 = (trace w0 ++ evs)%list ∧ Forall (on_requests Q) evs)
    as (evs & Ht1 & Hevs).
  { apply doRequest_cases in Hd. destruct Hd as (cr & hit & w2 & Hl & Hd).
    apply cacheLookup_trace in Hl as ((evl & Htl & Hevl) & _ & _). simpl in Htl.
    apply (Forall_not_request Q) in Hevl; [|by intros []].
    destruct Hd as [(_ & _ & _ & ->) | [(_ & e & _ & _ & -> & _)
                   | (_ & body & u & x & w3 & _ & _ & Ha & Hx)]].
    - by exists evl.
    - by exists evl.
    - eapply (attempts_requests I Q _ _ _ _ _ _ (heap w2)) in Ha
        as (eva & Hta & Heva & _); [| |by destruct (EnableCache rb)|done].
      2:{ intros rb0 w4 request rb1 w5 HI0 _. by apply Hprep. }
      destruct x as [e|r].
      + destruct Hx as [_ ->]. exists (evl ++ eva)%list. simpl.
        rewrite Hta, Htl, <- app_assoc. split; [done|]. by apply Forall_app.
      + apply finish_trace in Hx as [(evf & Htf & Hevf) _].
        apply (Forall_not_request Q) in Hevf; [|by intros []].
        exists (evl ++ eva ++ evf)%list. rewrite Htf, Hta, Htl, <- !app_assoc.
        split; [done|]. by repeat (apply Forall_app; split). }
  apply complete_spec in Hc as [-> | (cb & s & _ & ->)]; simpl.
  - exists (pre ++ evs)%list. rewrite Ht1, Ht0, <- app_assoc. split; [done|].
    by apply Forall_app.
  - exists (pre ++ evs ++ [EvAfter cb s])%list. rewrite Ht1, Ht0, <- !app_assoc.
    split; [done|]. repeat (apply Forall_app; split); try done. by repeat constructor.
Qed.

(** X2. Every request that [DoRequest] hands to the transport carries the
    pool header [X-Rest-Pool-Name], and its value is the builder's pool
    name, or the name inferred from the call site when the builder has
    none; it is never empty, and neither the builder's headers, the option
    headers nor forwarded tracing headers replace it. *)
Theorem DoRequest_pool_header (fuel : nat) (rb : RequestBuilder)
    (verb reqURL : string) (reqBody : option GoValue) (opts : list Option)
    (w : World) (o : Outcome) (rb' : RequestBuilder) (w' : World) :
  DoRequest env fuel rb verb reqURL reqBody opts w = Some (o, rb', w') →
  ∃ evs,
    trace w' = (trace w ++ evs)%list
    ∧ Forall (on_requests (λ req,
        req_get env restClientPoolName req = effective_pool env rb
        ∧ req_get env restClientPoolName req ≠ "")) evs.
Proof.
  apply (DoRequest_requests (λ rb0, effective_pool env rb0 = effective_pool env rb)).
  - intros verb0 u body cr cu opt rb0 w0 request rb1 w1 HI Hp.
    apply prepare_pool in Hp as [Hq Hn]. rewrite Hq, HI.
    split; [split; [done | apply effective_pool_nonempty]|].
    unfold effective_pool at 1. rewrite Hn, HI.
    destruct (String.eqb_spec (effective_pool env rb) ""); [|done].
    by destruct (effective_pool_nonempty env rb).
  - done.
  - done.
Qed.
End every_request.

Lemma DoRequest_pool_header_witness :
  ∃ o rb' w' evs,
    DoRequest Sample.env 1 Sample.rb_plain "GET" "/x" None [] Sample.w0 = Some (o, rb', w')
    ∧ trace w' = evs
    ∧ Forall (on_requests (λ req,
        req_get Sample.env restClientPoolName req = "pool_unknown"
        ∧ req_get Sample.env restClientPoolName req ≠ "")) evs
    ∧ count_events is_network evs = 1%nat.
Proof.
  destruct (DoRequest Sample.env 1 Sample.rb_plain "GET" "/x" None [] Sample.w0)
    as [[[o rb'] w']|] eqn:H.
  - destruct (DoRequest_pool_header Sample.env 1 Sample.rb_plain "GET" "/x" None []
                Sample.w0 o rb' w' H) as (evs & Ht & Hall).
    exists o, rb', w', evs. split; [reflexivity|]. split; [exact Ht|]. split; [exact Hall|].
    vm_compute in H. injection H as <- <- <-. simpl in Ht. subst evs.
    vm_compute. reflexivity.
  - vm_compute in H. discriminate H.
Defined.

(** ** The headers that the engine sets *)

Section fixed_headers.
Variable env : Env.
Hypothesis Hsep : canon_separates (canon env).

Lemma req_get_set_other k k' v r :
  existsb (String.eqb k) engine_headers = true →
  existsb (String.eqb k') engine_headers = true →
  String.eqb k k' = false →
  req_get env k (req_set env k' v r) = req_get env k r.
Proof.
  intros Hk Hk' Hne. rewrite req_get_set. case_decide as Hc; [|done].
  apply existsb_exists in Hk as (x & Hx & ->%String.eqb_eq).
  apply existsb_exists in Hk' as (x' & Hx' & ->%String.eqb_eq).
  apply Hsep in Hc; [|done..]. subst. by rewrite String.eqb_refl in Hne.
Qed.

Ltac strip_header :=
  repeat first
    [ rewrite req_get_set_eq
    | rewrite req_get_set_other by reflexivity
    | match goal with
      | |- req_get _ _ (if ?b then _ else _) = _ => destruct b
      | |- req_get _ _ (match ?x with _ => _ end) = _ => destruct x
      end ].

Lemma req_get_Method k v r : Method (req_set env k v r) = Method r.
Proof. done. Qed.

Lemma fold_add_Method (m : Header) (r0 : Request) :
  Method (map_fold (λ key values r, foldl (λ r value, req_add env key value r) r values)
            r0 m) = Method r0.
Proof.
  apply (map_fold_weak_ind (λ (acc : Request) _, Method acc = Method r0)); [done|].
  intros i x m' r _ IH. rewrite <- IH. clear IH. revert r.
  induction x as [|v vs IHv]; intros r; [done|]. simpl. by rewrite IHv.
Qed.

Ltac method_of :=
  repeat first
    [ rewrite req_get_Method
    | rewrite fold_add_Method
    | match goal with
      | |- Method (if ?b then _ else _) = _ => destruct b
      | |- Method (match ?x with _ => _ end) = _ => destruct x
      end ];
  reflexivity.

Lemma setParams_Method rb req cr cu : Method (setParams env rb req cr cu) = Method req.
Proof. unfold setParams. cbv zeta. method_of. Qed.

(** What [setParams] leaves in the headers that it always sets, whatever
    the builder's own headers say. *)
Lemma setParams_Connection rb req cr cu :
  req_get env "Connection" (setParams env rb req cr cu) = "keep-alive".
Proof. unfold setParams. cbv zeta. strip_header; reflexivity. Qed.

Lemma setParams_Cache_Control rb req cr cu :
  req_get env "Cache-Control" (setParams env rb req cr cu) = "no-cache".
Proof. unfold setParams. cbv zeta. strip_header; reflexivity. Qed.

Lemma setParams_User_Agent rb req cr cu :
  req_get env "User-Agent" (setParams env rb req cr cu) = effective_user_agent rb.
Proof. unfold setParams, effective_user_agent. cbv zeta. strip_header; reflexivity. Qed.

Lemma setParams_Accept rb req cr cu :
  req_get env "Accept" (setParams env rb req cr cu)
  = match ContentType rb with
    | JSON => "application/json"
    | XML => "application/xml"
    | _ => req_get env "Accept" (setParams env rb req None cu)
    end.
Proof.
  unfold setParams. cbv zeta.
  destruct (ContentType rb); cbn [String.eqb Ascii.eqb Bool.eqb];
    strip_header; reflexivity.
Qed.

Lemma setParams_Content_Type rb req cr cu :
  matchVerbs (Method req) contentVerbs = true →
  req_get env "Content-Type" (setParams env rb req cr cu)
  = match ContentType rb with
    | JSON => "application/json"
    | XML => "application/xml"
    | _ => req_get env "Content-Type" (setParams env rb req None cu)
    end.
Proof.
  intros Hv. unfold setParams. cbv zeta.
  destruct (ContentType rb); cbn [String.eqb Ascii.eqb Bool.eqb];
    try match goal with
        | |- context [matchVerbs (Method ?X) contentVerbs] =>
            replace (Method X) with (Method req) by (symmetry; method_of); rewrite Hv
        end;
    strip_header; reflexivity.
Qed.


End fixed_headers.

Section prepared_headers.
Variable env : Env.
Hypothesis Hsep : canon_separates (canon env).

(** A header that [setParams] has set survives the rest of [prepare]. *)
Lemma prepare_keeps verb u body cr cu opt rb w request rb' w' k :
  In k engine_headers → k ≠ socketTimeoutConfig → k ≠ restClientPoolName →
  prepare env verb u body cr cu opt rb w = (request, rb', w') →
  req_get env k (setParams env rb (mkRequest verb u body ∅) (cr ≫= λ p, heap w !! p) cu) ≠ "" →
  req_get env k request
  = req_get env k (setParams env rb (mkRequest verb u body ∅) (cr ≫= λ p, heap w !! p) cu)
  ∧ Method request = verb.
Proof.
  intros Hin Hs Hp Hprep. unfold prepare in Hprep.
  set (r0 := setParams env rb (mkRequest verb u body ∅) (cr ≫= λ p, heap w !! p) cu) in *.
  intros Hne.
  assert (Method r0 = verb) as HM by apply setParams_Method.
  assert (∀ a b, req_get env k (req_set env restClientPoolName a
                                  (req_set env socketTimeoutConfig b r0)) = req_get env k r0)
    as Hsets.
  { intros a b. rewrite !req_get_set.
    case_decide as H1; [apply Hsep in H1; [congruence | simpl; tauto | done]|].
    case_decide as H2; [apply Hsep in H2; [congruence | simpl; tauto | done]|]. done. }
  assert (∀ r1 w1, Method (copyTraceHeaders env opt r1 w1).1 = Method r1) as HMt.
  { intros r1 w1. unfold copyTraceHeaders.
    apply (map_fold_weak_ind (λ (acc : Request * World) _, Method acc.1 = Method r1)); [done|].
    intros i x m [r2 w2] _ IH. simpl in IH. simpl. by destruct (_ && _). }
  assert (∀ r1, Method (copyOptHeaders env opt r1) = Method r1) as HMo.
  { intros r1. unfold copyOptHeaders.
    by apply (map_fold_weak_ind (λ (acc : Request) _, Method acc = Method r1)). }
  assert (∀ a b w0,
            let rq := (copyTraceHeaders env opt
                         (copyOptHeaders env opt
                            (req_set env restClientPoolName a
                               (req_set env socketTimeoutConfig b r0))) w0).1 in
            req_get env k rq = req_get env k r0 ∧ Method rq = verb) as Hall.
  { intros a b w0 rq. subst rq. split.
    - rewrite copyTraceHeaders_keeps by (rewrite copyOptHeaders_keeps; by rewrite Hsets).
      rewrite copyOptHeaders_keeps by (by rewrite Hsets). apply Hsets.
    - by rewrite HMt, HMo. }
  destruct (String.eqb (poolName rb) "");
    destruct (copyTraceHeaders _ _ _ _) as [rq w1] eqn:Hc; injection Hprep as <- <- <-;
    change rq with (rq, w1).1; rewrite <- Hc; apply Hall.
Qed.
End prepared_headers.

Lemma effective_user_agent_nonempty rb : effective_user_agent rb ≠ "".
Proof. unfold effective_user_agent. by destruct (String.eqb_spec (UserAgent rb) ""). Qed.

(** X3. Canonicalisation telling the engine's header names apart, every
    request that [DoRequest] hands to the transport has [Connection:
    keep-alive], [Cache-Control: no-cache] and the User-Agent of the builder
    (or the default one when the builder has none) as the values that [Get]
    reads, whatever the builder's own headers, the option headers and the
    forwarded headers hold. For JSON and XML builders [Accept] is the
    matching media type, and so is [Content-Type] when the verb is POST,
    PUT or PATCH. *)
Theorem DoRequest_fixed_headers (env : Env) (fuel : nat) (rb : RequestBuilder)
    (verb reqURL : string) (reqBody : option GoValue) (opts : list Option)
    (w : World) (o : Outcome) (rb' : RequestBuilder) (w' : World) :
  canon_separates (canon env) →
  DoRequest env fuel rb verb reqURL reqBody opts w = Some (o, rb', w') →
  ∃ evs,
    trace w' = (trace w ++ evs)%list
    ∧ Forall (on_requests (λ req,
        req_get env "Connection" req = "keep-alive"
        ∧ req_get env "Cache-Control" req = "no-cache"
        ∧ req_get env "User-Agent" req = effective_user_agent rb
        ∧ (ContentType rb = JSON →
             req_get env "Accept" req = "application/json"
             ∧ (matchVerbs (Method req) contentVerbs = true →
                  req_get env "Content-Type" req = "application/json"))
        ∧ (ContentType rb = XML →
             req_get env "Accept" req = "application/xml"
             ∧ (matchVerbs (Method req) contentVerbs = true →
                  req_get env "Content-Type" req = "application/xml")))) evs.
Proof.
  intros Hsep.
  apply (DoRequest_requests env
           (λ rb0, UserAgent rb0 = UserAgent rb ∧ ContentType rb0 = ContentType rb)).
  - intros verb0 u body cr cu opt rb0 w0 request rb1 w1 [HU HC] Hp.
    pose proof (prepare_spec _ _ _ _ _ _ _ _ _ _ _ _ Hp) as (Hk & _ & _).
    split; [|by rewrite (kept_UserAgent _ _ Hk), (kept_ContentType _ _ Hk)].
    set (r0 := setParams env rb0 (mkRequest verb0 u body ∅) (cr ≫= λ p, heap w0 !! p) cu).
    assert (effective_user_agent rb0 = effective_user_agent rb) as HUA.
    { unfold effective_user_agent. by rewrite HU. }
    pose proof (effective_user_agent_nonempty rb) as Hne.
    assert (∀ k v, In k engine_headers → k ≠ socketTimeoutConfig → k ≠ restClientPoolName →
              v ≠ "" → req_get env k r0 = v →
              req_get env k request = v ∧ Method request = verb0) as Hget.
    { intros k v Hin Hs Hpn Hv Heq.
      destruct (prepare_keeps env Hsep _ _ _ _ _ _ _ _ _ _ _ k Hin Hs Hpn Hp) as [Hr HM].
      - fold r0. congruence.
      - fold r0 in Hr. split; [congruence | done]. }
    destruct (Hget "Connection" "keep-alive") as [HA HM];
      [simpl; tauto | done | done | done | by apply setParams_Connection |].
    destruct (Hget "Cache-Control" "no-cache") as [HB _];
      [simpl; tauto | done | done | done | by apply setParams_Cache_Control |].
    destruct (Hget "User-Agent" (effective_user_agent rb)) as [HD _];
      [simpl; tauto | done | done | done
      | rewrite <- HUA; by apply setParams_User_Agent |].
    split; [done|]. split; [done|]. split; [done|]. rewrite <- HC. split.
    + intros HJ. split.
      * apply (Hget "Accept"); [simpl; tauto | done..|].
        subst r0. rewrite setParams_Accept by done. by rewrite HJ.
      * intros HV. rewrite HM in HV.
        apply (Hget "Content-Type"); [simpl; tauto | done..|].
        subst r0. rewrite setParams_Content_Type by done. by rewrite HJ.
    + intros HX. split.
      * apply (Hget "Accept"); [simpl; tauto | done..|].
        subst r0. rewrite setParams_Accept by done. by rewrite HX.
      * intros HV. rewrite HM in HV.
        apply (Hget "Content-Type"); [simpl; tauto | done..|].
        subst r0. rewrite setParams_Content_Type by done. by rewrite HX.
  - done.
  - done.
Qed.

Lemma canon_separates_id : canon_separates id.
Proof. by intros k k' _ _. Qed.

Lemma DoRequest_fixed_headers_witness :
  ∃ o rb' w',
    DoRequest Sample.env 1 Sample.rb_plain "POST" "/x" None [] Sample.w0 = Some (o, rb', w')
    ∧ ∃ evs,
        trace w' = (trace Sample.w0 ++ evs)%list
        ∧ Forall (on_requests (λ req,
            req_get Sample.env "Connection" req = "keep-alive"
            ∧ req_get Sample.env "Cache-Control" req = "no-cache"
            ∧ req_get Sample.env "User-Agent" req = effective_user_agent Sample.rb_plain
            ∧ (ContentType Sample.rb_plain = JSON →
                 req_get Sample.env "Accept" req = "application/json"
                 ∧ (matchVerbs (Method req) contentVerbs = true →
                      req_get Sample.env "Content-Type" req = "application/json"))
            ∧ (ContentType Sample.rb_plain = XML →
                 req_get Sample.env "Accept" req = "application/xml"
                 ∧ (matchVerbs (Method req) contentVerbs = true →
                      req_get Sample.env "Content-Type" req = "application/xml")))) evs.
Proof.
  destruct (DoRequest Sample.env 1 Sample.rb_plain "POST" "/x" None [] Sample.w0)
    as [[[o rb'] w']|] eqn:H.
  - exists o, rb', w'. split; [reflexivity|].
    exact (DoRequest_fixed_headers Sample.env 1 Sample.rb_plain "POST" "/x" None []
             Sample.w0 o rb' w' canon_separates_id H).
  - vm_compute in H. discriminate H.
Defined.

(** ** Revalidation *)

Section revalidation.
Variable env : Env.
Hypothesis Hsep : canon_separates (canon env).


End revalidation.


(** ** Attempts, sleeps and the bound of the strategy *)

Section counting.
Variable env : Env.

Lemma count_events_nil P : count_events P [] = 0%nat.
Proof. done. Qed.

Lemma count_events_cons P e evs :
  count_events P (e :: evs) = ((if P e then 1 else 0) + count_events P evs)%nat.
Proof. unfold count_events. simpl. by destruct (P e). Qed.

Lemma recordApiCall_trace rb r retries w :
  ∃ evs, trace (recordApiCall rb r retries w) = (trace w ++ evs)%list
         ∧ count_events is_network evs = 0%nat ∧ count_events is_sleep evs = 0%nat.
Proof.
  unfold recordApiCall. destruct (DisableApiCallMetrics _); simpl.
  - exists []. by rewrite app_nil_r.
  - by eexists [_].
Qed.

Lemma recordRetryBreak_trace rb w :
  ∃ evs, trace (recordRetryBreak rb w) = (trace w ++ evs)%list
         ∧ count_events is_network evs = 0%nat ∧ count_events is_sleep evs = 0%nat.
Proof.
  unfold recordRetryBreak. destruct (DisableApiCallMetrics _); simpl.
  - exists []. by rewrite app_nil_r.
  - by eexists [_].
Qed.

Lemma retry_events_counts r rr :
  count_events is_network (retry_events r rr) = 0%nat
  ∧ count_events is_sleep (retry_events r rr) = 1%nat.
Proof. unfold retry_events. by destruct r. Qed.

(** The loop gives up on the request only when it cannot be built. *)
Lemma attempts_NewRequestFailed verb reqURL body cacheResp cacheURL opt fuel :
  ∀ retries rb w e rb' w',
    attempts env verb reqURL body cacheResp cacheURL opt fuel retries rb w
      = Some (NewRequestFailed e, rb', w') →
    newRequestErr env verb reqURL = Some e.
Proof.
  induction fuel as [|fuel IH]; intros retries rb w e rb' w'; simpl; [done|].
  destruct (newRequestErr env verb reqURL) as [e0|]; [by intros [= <- <- <-]|].
  destruct (prepare _ _ _ _ _ _ _ _ _) as [[request rb1] w1].
  destruct (RetryStrategy rb1) as [strategy|]; [|done].
  destruct (Retry _); [|done].
  destruct (circuitBreaker rb1); [apply IH|].
  destruct (limiterAdmits env _); [apply IH|done].
Qed.

(** One iteration of the loop is one call of the transport; each retry
    sleeps once; a strategy that stops at [bound] retries bounds the
    calls. *)
Lemma attempts_counts verb reqURL body cacheResp cacheURL opt (bound : Z) fuel :
  ∀ retries rb w x rb' w',
    attempts env verb reqURL body cacheResp cacheURL opt fuel retries rb w = Some (x, rb', w') →
    ∃ evs,
      trace w' = (trace w ++ evs)%list
      ∧ match x with
        | NewRequestFailed _ => evs = []
        | Attempted _ => count_events is_network evs = S (count_events is_sleep evs)
        end
      ∧ ((∀ s, RetryStrategy rb = Some s →
               ∀ req resp err n, bound ≤ n → Retry (ShouldRetry s req resp err n) = false) →
         (count_events is_network evs ≤ S (Z.to_nat (bound - retries)))%nat).
Proof.
  induction fuel as [|fuel IH]; intros retries rb w x rb' w'; simpl; [done|].
  destruct (newRequestErr env verb reqURL) as [e|] eqn:Hnew.
  { intros [= <- <- <-]. exists []. rewrite app_nil_r. repeat split; try done.
    intros _. rewrite count_events_nil. lia. }
  intros Hrun.
  assert (∀ fuel0 n rb0 w0 e0 rb2 w2,
            attempts env verb reqURL body cacheResp cacheURL opt fuel0 n rb0 w0
              ≠ Some (NewRequestFailed e0, rb2, w2)) as Hnever.
  { intros fuel0 n rb0 w0 e0 rb2 w2 Hf. apply attempts_NewRequestFailed in Hf. congruence. }
  revert Hrun.
  destruct (prepare _ _ _ _ _ _ _ _ _) as [[request rb1] w1] eqn:Hp.
  pose proof (prepare_spec _ _ _ _ _ _ _ _ _ _ _ _ Hp) as (Hk & _ & _).
  apply prepare_events in Hp as [_ _ _ (evs1 & Ht1 & Hevs1)].
  assert (count_events is_network evs1 = 0%nat) as Hn1.
  { apply (count_events_none _ prepare_event); [by intros []|done]. }
  assert (count_events is_sleep evs1 = 0%nat) as Hs1.
  { apply (count_events_none _ prepare_event); [by intros []|done]. }
  set (r := clientDo env (trace w1) request).
  destruct (recordApiCall_trace rb1 r retries (emit (EvClientDo request) w1))
    as (evs2 & Ht2 & Hn2 & Hs2).
  set (w2 := recordApiCall rb1 r retries (emit (EvClientDo request) w1)) in *.
  simpl in Ht2. rewrite Ht1, <- !app_assoc in Ht2.
  assert (∃ evs, trace w2 = (trace w ++ evs)%list
                 ∧ count_events is_network evs = 1%nat ∧ count_events is_sleep evs = 0%nat)
    as (evs & Ht & Hn & Hs).
  { eexists. split; [exact Ht2|]. rewrite !count_events_app, Hn1, Hs1, Hn2, Hs2. done. }
  clearbody w2. clear Ht2 Ht1 Hevs1 Hn1 Hs1 Hn2 Hs2 evs1 evs2.
  assert (∀ w3 evs3 x0 rb0 w0,
            trace w3 = (trace w2 ++ evs3)%list →
            count_events is_network evs3 = 0%nat → count_events is_sleep evs3 = 1%nat →
            ((∀ s, RetryStrategy rb = Some s →
                  ∀ req resp err n, bound ≤ n → Retry (ShouldRetry s req resp err n) = false) →
            retries < bound) →
            attempts env verb reqURL body cacheResp cacheURL opt fuel (retries + 1) rb1 w3
              = Some (x0, rb0, w0) →
            ∃ evs,
              trace w0 = (trace w ++ evs)%list
              ∧ match x0 with
                | NewRequestFailed _ => evs = []
                | Attempted _ => count_events is_network evs = S (count_events is_sleep evs)
                end
              ∧ ((∀ s, RetryStrategy rb = Some s →
                       ∀ req resp err n, bound ≤ n →
                                         Retry (ShouldRetry s req resp err n) = false) →
                 (count_events is_network evs ≤ S (Z.to_nat (bound - retries)))%nat))
    as Hnext.
  { intros w3 evs3 x0 rb0 w0 Ht3 Hn3 Hs3 Hlt Ha.
    pose proof Ha as Ha0. apply IH in Ha as (evs4 & Ht4 & Hx & Hb).
    exists (evs ++ evs3 ++ evs4)%list. rewrite Ht4, Ht3, Ht, <- !app_assoc.
    split; [done|]. rewrite !count_events_app, Hn, Hs, Hn3, Hs3. split.
    - destruct x0 as [e|r0]; [by destruct (Hnever _ _ _ _ _ _ _ Ha0)|]. lia.
    - intros Hbound. specialize (Hlt Hbound).
      assert (count_events is_network evs4 ≤ S (Z.to_nat (bound - (retries + 1))))%nat.
      { apply Hb. intros s Hs0. apply Hbound. by rewrite <- (kept_RetryStrategy _ _ Hk). }
      lia. }
  assert (∃ evs0,
            trace w2 = (trace w ++ evs0)%list
            ∧ count_events is_network evs0 = S (count_events is_sleep evs0)
            ∧ ((∀ s, RetryStrategy rb = Some s →
                     ∀ req resp err n, bound ≤ n →
                                       Retry (ShouldRetry s req resp err n) = false) →
               (count_events is_network evs0 ≤ S (Z.to_nat (bound - retries)))%nat)) as Hstop.
  { exists evs. split; [done|]. rewrite Hn, Hs. split; [done|]. intros _. lia. }
  destruct (RetryStrategy rb1) as [strategy|] eqn:Hstrat; [|by intros [= <- <- <-]].
  set (rr := ShouldRetry strategy request (do_resp r) (do_err r) retries).
  destruct (Retry rr) eqn:Hretry; [|by intros [= <- <- <-]].
  assert ((∀ s, RetryStrategy rb = Some s →
                ∀ req resp err n, bound ≤ n → Retry (ShouldRetry s req resp err n) = false) →
          retries < bound) as Hlt.
  { intros Hbound. destruct (Z.lt_ge_cases retries bound) as [?|Hge]; [done|].
    rewrite (kept_RetryStrategy _ _ Hk) in Hstrat.
    unfold rr in Hretry. by rewrite (Hbound _ Hstrat _ _ _ _ Hge) in Hretry. }
  destruct (retry_events_counts r rr) as [Hrn Hrs].
  destruct (circuitBreaker rb1).
  - apply (Hnext _ (retry_events r rr)); [apply retryFunc_trace|done..].
  - destruct (limiterAdmits env (trace w2)).
    + apply (Hnext _ (EvLimiterAction true :: retry_events r rr)); [| | |done].
      * rewrite retryFunc_trace. simpl. by rewrite <- app_assoc.
      * by rewrite count_events_cons.
      * by rewrite count_events_cons.
    + intros [= <- <- <-].
      destruct (recordRetryBreak_trace rb1 (emit (EvLimiterAction false) w2))
        as (evs5 & Ht5 & Hn5 & Hs5).
      simpl in Ht5. rewrite Ht, <- !app_assoc in Ht5.
      eexists. split; [exact Ht5|].
      rewrite !count_events_app, !count_events_cons, Hn, Hs, Hn5, Hs5. simpl.
      split; [done|]. intros _. lia.
Qed.
End counting.

Section run_counts.
Variable env : Env.

(** The same for a whole [DoRequest]: the cache, the breaker and the
    local failures add neither calls nor sleeps. *)
Lemma DoRequest_counts (bound : Z) fuel rb verb reqURL reqBody opts w o rb' w' :
  DoRequest env fuel rb verb reqURL reqBody opts w = Some (o, rb', w') →
  ∃ evs,
    trace w' = (trace w ++ evs)%list
    ∧ count_events is_sleep evs = Nat.pred (count_events is_network evs)
    ∧ ((∀ s, RetryStrategy rb = Some s →
             ∀ req resp err n, bound ≤ n → Retry (ShouldRetry s req resp err n) = false) →
       (count_events is_network evs ≤ S (Z.to_nat bound))%nat).
Proof.
  intros H.
  assert (∀ evs, forallb is_cache_access evs = true →
                 count_events is_network evs = 0%nat ∧ count_events is_sleep evs = 0%nat)
    as Hcache.
  { intros evs Hevs. split; apply (count_events_none _ is_cache_access); (done || by intros []). }
  apply DoRequest_cases in H
    as [(cb & after & e & _ & _ & -> & -> & ->) | (w0 & after & o1 & w1 & Hw0 & Hd & Hc)].
  { exists [EvAllow]. split; [done|]. split; [done|]. intros _.
    change (count_events is_network [EvAllow]) with 0%nat. lia. }
  assert (∃ pre, trace w0 = (trace w ++ pre)%list
                 ∧ count_events is_network pre = 0%nat ∧ count_events is_sleep pre = 0%nat)
    as (pre & Ht0 & Hn0 & Hs0).
  { destruct Hw0 as [(_ & -> & _) | (cb & _ & _ & ->)].
    - exists []. by rewrite app_nil_r.
    - by exists [EvAllow]. }
  assert (∃ evs, trace w1 = (trace w0 ++ evs)%list
                 ∧ count_events is_sleep evs = Nat.pred (count_events is_network evs)
                 ∧ ((∀ s, RetryStrategy rb = Some s →
                          ∀ req resp err n, bound ≤ n →
                                            Retry (ShouldRetry s req resp err n) = false) →
                    (count_events is_network evs ≤ S (Z.to_nat bound))%nat))
    as (evs & Ht1 & Hps & Hb).
  { apply doRequest_cases in Hd. destruct Hd as (cr & hit & w2 & Hl & Hd).
    apply cacheLookup_trace in Hl as ((evl & Htl & Hevl) & _ & _). simpl in Htl.
    apply Hcache in Hevl as [Hnl Hsl].
    destruct Hd as [(_ & _ & _ & ->) | [(_ & e & _ & _ & -> & _)
                   | (_ & body & u & x & w3 & _ & _ & Ha & Hx)]].
    - exists evl. rewrite Hnl, Hsl. split; [done|]. split; [done|]. intros _. lia.
    - exists evl. rewrite Hnl, Hsl. split; [done|]. split; [done|]. intros _. lia.
    - apply (attempts_counts env _ _ _ _ _ _ bound) in Ha as (eva & Hta & Hxa & Hba).
      assert ((∀ s, RetryStrategy rb = Some s →
                    ∀ req resp err n, bound ≤ n →
                                      Retry (ShouldRetry s req resp err n) = false) →
              (count_events is_network eva ≤ S (Z.to_nat bound))%nat) as Hba'.
      { intros Hbound. rewrite Z.sub_0_r in Hba. apply Hba.
        by destruct (EnableCache rb). }
      destruct x as [e|r].
      + destruct Hx as [_ ->]. subst eva. exists evl. simpl. rewrite Hta, app_nil_r.
        rewrite Hnl, Hsl. split; [done|]. split; [done|]. intros _. lia.
      + apply finish_trace in Hx as [(evf & Htf & Hevf) _].
        apply Hcache in Hevf as [Hnf Hsf].
        exists (evl ++ eva ++ evf)%list. rewrite Htf, Hta, Htl, <- !app_assoc.
        split; [done|]. rewrite !count_events_app, Hnl, Hsl, Hnf, Hsf, Hxa.
        split; [simpl; lia|]. intros Hbound. specialize (Hba' Hbound). lia. }
  assert (∃ post, trace w' = (trace w1 ++ post)%list
                  ∧ count_events is_network post = 0%nat ∧ count_events is_sleep post = 0%nat)
    as (post & Ht2 & Hn2 & Hs2).
  { apply complete_spec in Hc as [-> | (cb & s & _ & ->)]; simpl.
    - exists []. by rewrite app_nil_r.
    - by eexists [_]. }
  exists (pre ++ evs ++ post)%list. rewrite Ht2, Ht1, Ht0, <- !app_assoc.
  split; [done|]. rewrite !count_events_app, Hn0, Hs0, Hn2, Hs2.
  split; [simpl; lia|]. intros Hbound. specialize (Hb Hbound). lia.
Qed.

(** X5. In any run of [DoRequest] the engine sleeps exactly once between
    two consecutive calls of the HTTP client and never otherwise: the
    number of sleeps is the number of calls less one (and zero when no call
    is made, as for a denied request, a cache hit or a body that cannot be
    marshalled). *)
Theorem DoRequest_sleeps_between_attempts (fuel : nat) (rb : RequestBuilder)
    (verb reqURL : string) (reqBody : option GoValue) (opts : list Option)
    (w : World) (o : Outcome) (rb' : RequestBuilder) (w' : World) :
  DoRequest env fuel rb verb reqURL reqBody opts w = Some (o, rb', w') →
  ∃ evs,
    trace w' = (trace w ++ evs)%list
    ∧ count_events is_sleep evs = Nat.pred (count_events is_network evs).
Proof.
  intros H. apply (DoRequest_counts 0) in H as (evs & Ht & Hs & _). by exists evs.
Qed.

End run_counts.

Lemma DoRequest_sleeps_between_attempts_witness :
  ∃ o rb' w',
    DoRequest Sample.env 5 (Sample.with_breaker Sample.closed_breaker Sample.rb_quiet)
      "GET" "/down" None [] Sample.w0 = Some (o, rb', w')
    ∧ ∃ evs,
        trace w' = (trace Sample.w0 ++ evs)%list
        ∧ count_events is_sleep evs = Nat.pred (count_events is_network evs).
Proof.
  destruct (DoRequest Sample.env 5 (Sample.with_breaker Sample.closed_breaker Sample.rb_quiet)
              "GET" "/down" None [] Sample.w0) as [[[o rb'] w']|] eqn:H.
  - exists o, rb', w'. split; [reflexivity|].
    exact (DoRequest_sleeps_between_attempts Sample.env 5
             (Sample.with_breaker Sample.closed_breaker Sample.rb_quiet)
             "GET" "/down" None [] Sample.w0 o rb' w' H).
  - vm_compute in H. discriminate H.
Defined.



(** ** Requests that reach the network *)

Section reached_network.
Variable env : Env.

(** With a transport that always gives the same answer, that answer is
    the one the loop ends with. *)
Lemma attempts_answer r verb reqURL body cacheResp cacheURL opt fuel :
  answers_always env r →
  ∀ retries rb w r' rb' w',
    attempts env verb reqURL body cacheResp cacheURL opt fuel retries rb w
      = Some (Attempted r', rb', w') →
    r' = r.
Proof.
  intros Hr. induction fuel as [|fuel IH]; intros retries rb w r' rb' w'; simpl; [done|].
  destruct (newRequestErr env verb reqURL) as [e0|]; [done|].
  destruct (prepare _ _ _ _ _ _ _ _ _) as [[request rb1] w1].
  rewrite (Hr (trace w1) request).
  destruct (RetryStrategy rb1) as [strategy|]; [|by intros [= <- <- <-]].
  destruct (Retry _); [|by intros [= <- <- <-]].
  destruct (circuitBreaker rb1); [apply IH|].
  destruct (limiterAdmits env _); [apply IH | by intros [= <- <- <-]].
Qed.

(** A [DoRequest] whose trace has gained a call of the transport went
    through the loop and through [finish]. *)
Lemma DoRequest_reached_network fuel rb verb reqURL reqBody opts w o rb' w' :
  DoRequest env fuel rb verb reqURL reqBody opts w = Some (o, rb', w') →
  (count_events is_network (trace w) < count_events is_network (trace w'))%nat →
  ∃ after cr w0 w1 body u r w2 o1 w3,
    heap w0 = heap w ∧ resourceCache w0 = resourceCache w ∧
    cacheLookup env rb verb (BaseURL rb +:+ reqURL) (store (new_addr w0) zeroResponse w0)
      = (cr, false, w1) ∧
    new_addr w0 = new_addr w ∧
    resourceCache w1 = resourceCache w ∧
    attempts env verb u body cr (BaseURL rb +:+ reqURL) (apply_opts opts) fuel 0
      (if EnableCache rb then rb else without_conditional_headers rb) w1
      = Some (Attempted r, rb', w2) ∧
    heap w2 = heap w1 ∧ resourceCache w2 = resourceCache w1 ∧
    finish env rb' verb (BaseURL rb +:+ reqURL) cr (new_addr w) r w2 = (o1, w3) ∧
    complete after o1 w3 = (o, w').
Proof.
  intros H Hnet.
  assert (∀ evs, forallb is_cache_access evs = true → count_events is_network evs = 0%nat)
    as Hcache.
  { intros evs Hevs. apply (count_events_none _ is_cache_access); (done || by intros []). }
  apply DoRequest_cases in H
    as [(cb & after & e & _ & _ & -> & -> & ->) | (w0 & after & o1 & w1 & Hw0 & Hd & Hc)].
  { exfalso. simpl in Hnet. rewrite count_events_app in Hnet.
    change (count_events is_network [EvAllow]) with 0%nat in Hnet. lia. }
  assert (count_events is_network (trace w0) = count_events is_network (trace w)
          ∧ heap w0 = heap w ∧ resourceCache w0 = resourceCache w) as (Hn0 & Hh0 & Hc0).
  { destruct Hw0 as [(_ & -> & _) | (cb & _ & _ & ->)]; [done|].
    simpl. by rewrite count_events_app, Nat.add_0_r. }
  assert (count_events is_network (trace w') = count_events is_network (trace w1)) as Hn1.
  { apply complete_spec in Hc as [-> | (cb & s & _ & ->)]; [done|].
    simpl. by rewrite count_events_app, Nat.add_0_r. }
  assert (new_addr w0 = new_addr w) as Hnew by (unfold new_addr; by rewrite Hh0).
  apply doRequest_cases in Hd.
  destruct Hd as (cr & hit & w2 & Hl & Hd). rewrite Hnew in Hd.
  pose proof Hl as Hlookup.
  apply cacheLookup_trace in Hl as ((evl & Htl & Hevl) & Hcl & _). simpl in Htl, Hcl.
  apply Hcache in Hevl.
  destruct Hd as [(_ & _ & _ & ->) | [(_ & e & _ & _ & -> & _)
                 | (Hd & body & u & x & w3 & _ & _ & Ha & Hx)]].
  - exfalso. rewrite Hn1, Htl, count_events_app in Hnet. lia.
  - exfalso. simpl in Hn1. rewrite Hn1, Htl, count_events_app in Hnet. lia.
  - destruct x as [e|r].
    + exfalso. destruct Hx as [_ ->]. simpl in Hn1.
      apply (attempts_counts env _ _ _ _ _ _ 0) in Ha as (eva & Hta & -> & _).
      rewrite Hn1, Hta, Htl, !count_events_app in Hnet. simpl in Hnet.
      change (count_events is_network []) with 0%nat in Hnet. lia.
    + pose proof (attempts_spec _ _ _ _ _ _ _ _ _ _ _ _ _ _ Ha) as [_ [Hh Hcc _ _]].
      exists after, cr, w0, w2, body, u, r, w3.
      destruct (finish _ _ _ _ _ _ _ _) as [o2 w4] eqn:Hf.
      exists o2, w4. injection Hx as -> ->. subst hit.
      repeat split; try done. congruence.
Qed.
End reached_network.

Section outcomes.
Variable env : Env.

(** What the three extractions leave in a Response. *)
Lemma extraction_fields tr res t res1 l res2 e res3 :
  setTTL env tr res = (t, res1) →
  setLastModified env res1 = (l, res2) →
  setETag env res2 = (e, res3) →
  Resp res3 = Resp res ∧ Err res3 = Err res ∧ byteBody res3 = byteBody res
  ∧ cacheHit res3 = cacheHit res ∧ revalidate res3 = revalidate res
  ∧ ttl res3 = ttl res1
  ∧ (ttl res = None → (t = true ↔ is_Some (ttl res3)))
  ∧ (lastModified res = None → (l = true ↔ is_Some (lastModified res3)))
  ∧ (e = true ↔ etag res3 ≠ "").
Proof.
  intros H1 H2 H3.
  assert (Resp res1 = Resp res ∧ Err res1 = Err res ∧ byteBody res1 = byteBody res
          ∧ cacheHit res1 = cacheHit res ∧ revalidate res1 = revalidate res
          ∧ lastModified res1 = lastModified res
          ∧ (ttl res = None → (t = true ↔ is_Some (ttl res1))))
    as (A1 & A2 & A3 & A4 & A5 & A6 & A7).
  { split_and!; try (revert H1; unfold setTTL; repeat case_match; by intros [= <- <-]).
    intros Hn. by apply (setTTL_flag env tr res Hn). }
  assert (Resp res2 = Resp res1 ∧ Err res2 = Err res1 ∧ byteBody res2 = byteBody res1
          ∧ cacheHit res2 = cacheHit res1 ∧ revalidate res2 = revalidate res1
          ∧ ttl res2 = ttl res1
          ∧ (lastModified res1 = None → (l = true ↔ is_Some (lastModified res2))))
    as (B1 & B2 & B3 & B4 & B5 & B6 & B7).
  { revert H2. unfold setLastModified. case_match; intros [= <- <-]; simpl; split_and!;
      try done; intros Hn; rewrite ?Hn; split; (done || by intros [? [=]] || eauto). }
  revert H3. unfold setETag. intros [= <- <-]. simpl.
  split_and!; try congruence.
  - intros Hn. rewrite B6. by apply A7.
  - intros Hn. apply B7. congruence.
  - destruct (String.eqb_spec (header_get (canon env) (resp_Header res2) "ETag") ""); simpl;
      split; (done || congruence).
Qed.

(** X7. When the HTTP client fails with the same error [e] whenever it is
    called, a [DoRequest] that reaches the network returns a newly
    allocated Response whose error is exactly [e], with no HTTP response
    and no body in it, and leaves the cache mapping as it was: a failed
    call is never cached. *)
Theorem DoRequest_transport_error (fuel : nat) (rb : RequestBuilder)
    (verb reqURL : string) (reqBody : option GoValue) (opts : list Option)
    (w : World) (partial : option HttpResponse) (e : error)
    (o : Outcome) (rb' : RequestBuilder) (w' : World) :
  answers_always env (DoErr partial e) →
  DoRequest env fuel rb verb reqURL reqBody opts w = Some (o, rb', w') →
  (count_events is_network (trace w) < count_events is_network (trace w'))%nat →
  o = Returned (Some (new_addr w))
  ∧ heap w !! new_addr w = None
  ∧ heap w' !! new_addr w = Some (set_Err e zeroResponse)
  ∧ resourceCache w' = resourceCache w.
Proof.
  intros Hr H Hnet.
  apply DoRequest_reached_network in H
    as (after & cr & w0 & w1 & body & u & r & w2 & o1 & w3
        & _ & _ & _ & _ & Hc1 & Ha & Hh2 & Hc2 & Hf & Hc);
    [|done].
  apply (attempts_answer _ (DoErr partial e)) in Ha as ->; [|done].
  simpl in Hf. injection Hf as <- <-.
  assert (w' = store (new_addr w) (set_Err e zeroResponse) w2
          ∨ ∃ cb s, w' = emit (EvAfter cb s) (store (new_addr w) (set_Err e zeroResponse) w2))
    as Hw'.
  { apply complete_spec in Hc as [-> | (cb & s & _ & ->)]; eauto. }
  assert (o = Returned (Some (new_addr w))) as ->.
  { revert Hc. unfold complete. destruct after as [cb|]; [|by intros [= <- _]].
    simpl. rewrite lookup_insert_eq. simpl. by intros [= <- _]. }
  split; [done|]. split; [apply new_addr_fresh|].
  destruct Hw' as [-> | (cb & s & ->)]; simpl; rewrite lookup_insert_eq;
    (split; [done | congruence]).
Qed.

(** X8. When the HTTP client answers [h] whenever it is called, where the
    body of [h] can be read and its status is not 304, and the builder does
    not uncompress responses, a [DoRequest] that reaches the network returns
    a newly allocated Response that holds [h] and the bytes of its body,
    has no error, is not a cache hit, and is marked for revalidation exactly
    when no TTL was extracted but a Last-Modified time or an ETag was. *)
Theorem DoRequest_returns_response (fuel : nat) (rb : RequestBuilder)
    (verb reqURL : string) (reqBody : option GoValue) (opts : list Option)
    (w : World) (h : HttpResponse)
    (o : Outcome) (rb' : RequestBuilder) (w' : World) :
  answers_always env (DoOk h) →
  BodyErr h = None →
  StatusCode h ≠ StatusNotModified →
  UncompressResponse rb = false →
  DoRequest env fuel rb verb reqURL reqBody opts w = Some (o, rb', w') →
  (count_events is_network (trace w) < count_events is_network (trace w'))%nat →
  o = Returned (Some (new_addr w))
  ∧ heap w !! new_addr w = None
  ∧ ∃ res,
      heap w' !! new_addr w = Some res
      ∧ Resp res = Some h ∧ Err res = None ∧ byteBody res = Body h
      ∧ cacheHit res = false ∧ well_marked res.
Proof.
  intros Hr Hbody Hstatus Hunc H Hnet.
  apply DoRequest_reached_network in H
    as (after & cr & w0 & w1 & body & u & r & w2 & o1 & w3
        & _ & _ & _ & _ & Hc1 & Ha & Hh2 & Hc2 & Hf & Hc);
    [|done].
  pose proof (attempts_spec _ _ _ _ _ _ _ _ _ _ _ _ _ _ Ha) as [Hk _].
  apply (attempts_answer _ (DoOk h)) in Ha as ->; [|done].
  assert (UncompressResponse rb' = false) as Hunc'.
  { rewrite (kept_UncompressResponse _ _ Hk). by destruct (EnableCache rb). }
  unfold finish in Hf. rewrite Hbody in Hf.
  assert ((StatusCode h =? StatusNotModified) = false) as Hne by by apply Z.eqb_neq.
  rewrite Hne, andb_false_r in Hf.
  unfold readBody in Hf. rewrite Hunc' in Hf. simpl negb in Hf. cbv iota in Hf.
  destruct (setTTL _ _ _) as [t res1] eqn:H1.
  destruct (setLastModified _ _) as [l res2] eqn:H2.
  destruct (setETag _ _) as [e res3] eqn:H3.
  destruct (extraction_fields _ _ _ _ _ _ _ _ H1 H2 H3)
    as (E1 & E2 & E3 & E4 & E5 & _ & E6 & E7 & E8).
  simpl in E1, E2, E3, E4, E5, E6, E7.
  specialize (E6 eq_refl). specialize (E7 eq_refl).
  set (res4 := if negb t && (l || e) then set_revalidate true res3 else res3) in Hf.
  assert (Resp res4 = Some h ∧ Err res4 = None ∧ byteBody res4 = Body h
          ∧ cacheHit res4 = false ∧ well_marked res4) as Hres.
  { assert (revalidate res4 = negb t && (l || e) ∧ ttl res4 = ttl res3
            ∧ lastModified res4 = lastModified res3 ∧ etag res4 = etag res3
            ∧ Resp res4 = Resp res3 ∧ Err res4 = Err res3 ∧ byteBody res4 = byteBody res3
            ∧ cacheHit res4 = cacheHit res3) as (F1 & F2 & F3 & F4 & F5 & F6 & F7 & F8).
    { subst res4. by destruct (negb t && (l || e)). }
    rewrite F5, F6, F7, F8. split_and!; try done.
    unfold well_marked. rewrite F1, F2, F3, F4. split.
    - intros [Ht Hv]%andb_true_iff. apply negb_true_iff in Ht. split.
      + destruct (ttl res3) eqn:Httl; [|done].
        destruct E6 as [_ E6]. rewrite E6 in Ht by eauto. done.
      + apply orb_true_iff in Hv as [Hl | He]; [left; by apply E7 | right; by apply E8].
    - intros [Ht Hv]. apply andb_true_iff. split.
      + apply negb_true_iff. destruct t; [|done].
        destruct E6 as [E6 _]. destruct (E6 eq_refl) as [? ?]. congruence.
      + apply orb_true_iff. destruct Hv as [Hl | He]; [left; by apply E7 | right; by apply E8]. }
  assert (heap w3 !! new_addr w = Some res4
          ∧ o1 = Returned (Some (new_addr w))) as [Hh3 ->].
  { destruct (EnableCache rb' && matchVerbs verb readVerbs && (t || l || e));
      injection Hf as <- <-; (split; [|done]).
    - destruct (resourceCache_setNX_frame (BaseURL rb +:+ reqURL) (new_addr w)
                  (emit (EvCacheSetNX (BaseURL rb +:+ reqURL) (new_addr w))
                     (store (new_addr w) res4 w2))) as (_ & -> & _).
      simpl. apply lookup_insert_eq.
    - simpl. apply lookup_insert_eq. }
  destruct Hres as (R1 & R2 & R3 & R4 & R5).
  assert (o = Returned (Some (new_addr w)) ∧ heap w' = heap w3) as [-> Hh'].
  { revert Hc. unfold complete. destruct after as [cb|]; [|by intros [= <- <-]].
    simpl. rewrite Hh3. simpl. unfold success_of. rewrite R2, R1.
    by intros [= <- <-]. }
  split; [done|]. split; [apply new_addr_fresh|].
  exists res4. by rewrite Hh'.
Qed.
End outcomes.

Lemma DoRequest_transport_error_witness :
  ∃ o rb' w',
    DoRequest (Sample.with_server (λ _ _, DoErr None "connection refused") Sample.env) 1
      Sample.rb0 "GET" "/x" None [] Sample.w0 = Some (o, rb', w')
    ∧ o = Returned (Some (new_addr Sample.w0))
    ∧ heap w' !! new_addr Sample.w0 = Some (set_Err "connection refused" zeroResponse)
    ∧ resourceCache w' = resourceCache Sample.w0.
Proof.
  destruct (DoRequest (Sample.with_server (λ _ _, DoErr None "connection refused") Sample.env) 1
              Sample.rb0 "GET" "/x" None [] Sample.w0) as [[[o rb'] w']|] eqn:H.
  - exists o, rb', w'. split; [reflexivity|].
    destruct (DoRequest_transport_error
                (Sample.with_server (λ _ _, DoErr None "connection refused") Sample.env) 1
                Sample.rb0 "GET" "/x" None [] Sample.w0 None "connection refused" o rb' w')
      as (Ho & _ & Hh & Hc).
    + intros tr req. reflexivity.
    + exact H.
    + vm_compute in H. injection H as <- <- <-. vm_compute. lia.
    + split; [exact Ho|]. split; [exact Hh | exact Hc].
  - vm_compute in H. discriminate H.
Defined.

Lemma DoRequest_returns_response_witness :
  ∃ o rb' w',
    DoRequest
      (Sample.with_server
         (λ _ _, DoOk (mkHttpResponse 200 {["ETag" := ["v2"]]} ["n"%char] None)) Sample.env) 1
      Sample.rb0 "GET" "/x" None [] Sample.w0 = Some (o, rb', w')
    ∧ o = Returned (Some (new_addr Sample.w0))
    ∧ ∃ res,
        heap w' !! new_addr Sample.w0 = Some res
        ∧ Resp res = Some (mkHttpResponse 200 {["ETag" := ["v2"]]} ["n"%char] None)
        ∧ Err res = None ∧ byteBody res = ["n"%char]
        ∧ cacheHit res = false ∧ well_marked res.
Proof.
  destruct (DoRequest
              (Sample.with_server
                 (λ _ _, DoOk (mkHttpResponse 200 {["ETag" := ["v2"]]} ["n"%char] None))
                 Sample.env) 1
              Sample.rb0 "GET" "/x" None [] Sample.w0) as [[[o rb'] w']|] eqn:H.
  - exists o, rb', w'. split; [reflexivity|].
    destruct (DoRequest_returns_response
                (Sample.with_server
                   (λ _ _, DoOk (mkHttpResponse 200 {["ETag" := ["v2"]]} ["n"%char] None))
                   Sample.env) 1
                Sample.rb0 "GET" "/x" None [] Sample.w0
                (mkHttpResponse 200 {["ETag" := ["v2"]]} ["n"%char] None) o rb' w')
      as (Ho & _ & Hres).
    + intros tr req. reflexivity.
    + reflexivity.
    + discriminate.
    + reflexivity.
    + exact H.
    + vm_compute in H. injection H as <- <- <-. vm_compute. lia.
    + split; [exact Ho | exact Hres].
  - vm_compute in H. discriminate H.
Defined.

(** ** Fresh entries of the cache *)

Section fresh_hit.
Variable env : Env.

Lemma cacheLookup_fresh rb verb url w q c :
  EnableCache rb = true → matchVerbs verb readVerbs = true →
  resourceCache w !! url = Some q → heap w !! q = Some c →
  revalidate c = false → (∀ tr, expired (now env tr) c = false) →
  cacheLookup env rb verb url w
  = (Some q, true, store q (set_cacheHit true c) (emit (EvCacheGet url) w)).
Proof.
  intros He Hv Hq Hc Hr Hx. unfold cacheLookup. rewrite He, Hv. simpl.
  unfold resourceCache_get. simpl. rewrite Hq, Hc, Hx. simpl. by rewrite Hc, Hr.
Qed.

(** A fresh entry is returned at once. *)
Lemma DoRequest_serves_fresh (fuel : nat) (rb : RequestBuilder)
    (verb reqURL : string) (reqBody : option GoValue) (opts : list Option)
    (w : World) (q : nat) (c : Response) :
  EnableCache rb = true →
  matchVerbs verb readVerbs = true →
  resourceCache w !! (BaseURL rb +:+ reqURL) = Some q →
  heap w !! q = Some c →
  revalidate c = false →
  (∀ tr, expired (now env tr) c = false) →
  is_Some (success_of c) →
  (∀ cb, circuitBreaker rb = Some cb → (Allow cb (trace w)).2 = None) →
  ∃ w' evs,
    DoRequest env fuel rb verb reqURL reqBody opts w = Some (Returned (Some q), rb, w')
    ∧ heap w' !! q = Some (set_cacheHit true c)
    ∧ resourceCache w' = resourceCache w
    ∧ trace w' = (trace w ++ evs)%list
    ∧ count_events is_network evs = 0%nat.
Proof.
  intros He Hv Hq Hc Hr Hx [s Hs] Hadmit.
  assert (q ≠ new_addr w) as Hfresh.
  { intros ->. pose proof (new_addr_fresh w). congruence. }
  assert (∀ w0, heap w0 = heap w → resourceCache w0 = resourceCache w →
            doRequest env fuel rb verb reqURL reqBody (apply_opts opts) w0
            = Some (Returned (Some q), rb,
                    store q (set_cacheHit true c)
                      (emit (EvCacheGet (BaseURL rb +:+ reqURL))
                         (store (new_addr w) zeroResponse w0)))) as Hdo.
  { intros w0 Hh0 Hc0. unfold doRequest.
    assert (new_addr w0 = new_addr w) as -> by (unfold new_addr; by rewrite Hh0).
    rewrite (cacheLookup_fresh rb verb _ _ q c); try done.
    - simpl. by rewrite Hc0.
    - simpl. rewrite lookup_insert_ne by done. by rewrite Hh0. }
  assert (success_of (set_cacheHit true c) = Some s) as Hs' by done.
  unfold DoRequest. destruct (circuitBreaker rb) as [cb|] eqn:Hcb.
  - specialize (Hadmit cb eq_refl). destruct (Allow cb (trace w)) as [after err].
    simpl in Hadmit. subst err. rewrite Hdo by done.
    unfold complete. destruct after as [n|].
    + simpl. rewrite lookup_insert_eq. simpl. rewrite Hs'.
      eexists _, [EvAllow; EvCacheGet _; EvAfter n s]. split; [done|]. simpl.
      rewrite lookup_insert_eq, <- !app_assoc. by repeat split.
    + eexists _, [EvAllow; EvCacheGet _]. split; [done|]. simpl.
      rewrite lookup_insert_eq, <- !app_assoc. by repeat split.
  - rewrite Hdo by done. simpl.
    eexists _, [EvCacheGet _]. split; [done|]. simpl.
    rewrite lookup_insert_eq. by repeat split.
Qed.

(** X9. With the cache on and a read verb, when the cache (modelled from
    the specification) holds for the URL an entry that is not marked for
    revalidation and whose TTL has not passed, [DoRequest] answers from the
    cache whatever the fuel: it returns the entry itself, flagged as a cache
    hit, calls the HTTP client not at all, and leaves the builder and the
    cache mapping as they were. A breaker that admits the call is told of
    the outcome of the cached entry. *)
Theorem DoRequest_fresh_hit (fuel : nat) (rb : RequestBuilder)
    (verb reqURL : string) (reqBody : option GoValue) (opts : list Option)
    (w : World) (q : nat) (c : Response) :
  EnableCache rb = true →
  matchVerbs verb readVerbs = true →
  resourceCache w !! (BaseURL rb +:+ reqURL) = Some q →
  heap w !! q = Some c →
  revalidate c = false →
  (∀ tr, expired (now env tr) c = false) →
  is_Some (success_of c) →
  (∀ cb, circuitBreaker rb = Some cb → (Allow cb (trace w)).2 = None) →
  ∃ w' evs,
    DoRequest env fuel rb verb reqURL reqBody opts w = Some (Returned (Some q), rb, w')
    ∧ heap w' !! q = Some (set_cacheHit true c)
    ∧ resourceCache w' = resourceCache w
    ∧ trace w' = (trace w ++ evs)%list
    ∧ count_events is_network evs = 0%nat.
Proof. apply DoRequest_serves_fresh. Qed.
End fresh_hit.

Lemma DoRequest_fresh_hit_witness :
  ∃ w' evs,
    DoRequest Sample.env 0 Sample.rb0 "GET" "/doc" None []
      (store 5%nat (set_ttl (2000 * Second) (set_revalidate false Sample.entry)) Sample.w_stale)
    = Some (Returned (Some 5%nat), Sample.rb0, w')
    ∧ heap w' !! 5%nat
      = Some (set_cacheHit true (set_ttl (2000 * Second) (set_revalidate false Sample.entry)))
    ∧ resourceCache w' = resourceCache Sample.w_stale
    ∧ trace w' = evs
    ∧ count_events is_network evs = 0%nat.
Proof.
  apply (DoRequest_fresh_hit Sample.env 0 Sample.rb0 "GET" "/doc" None []
           (store 5%nat (set_ttl (2000 * Second) (set_revalidate false Sample.entry))
              Sample.w_stale)
           5%nat (set_ttl (2000 * Second) (set_revalidate false Sample.entry))).
  - reflexivity.
  - reflexivity.
  - vm_compute. reflexivity.
  - vm_compute. reflexivity.
  - reflexivity.
  - intros tr. vm_compute. reflexivity.
  - eexists. vm_compute. reflexivity.
  - intros cb Hcb. discriminate Hcb.
Defined.

(** ** A response is cached, then served *)

Section round_trip.
Variable env : Env.

(** X10. The round trip through the cache (which is modelled from the
    specification). Let the cache be on, the verb a read verb, and let the
    HTTP client answer with a readable response [h], not a 304, whose
    [Cache-Control] starts with [max-age=n] for a positive [n], while less than [n]
    seconds pass between any two readings of the clock. If a [DoRequest]
    reaches the network, then the next [DoRequest] for the same URL, with
    the builder and the world the first one left, is answered from the
    cache: it returns the very Response that the first call returned and
    calls the HTTP client not at all. *)
Theorem DoRequest_cached_then_served (fuel fuel2 : nat) (rb : RequestBuilder)
    (verb reqURL : string) (reqBody reqBody2 : option GoValue) (opts opts2 : list Option)
    (w : World) (h : HttpResponse) (n : Z) (rest : string)
    (o : Outcome) (rb1 : RequestBuilder) (w1 : World) :
  EnableCache rb = true →
  matchVerbs verb readVerbs = true →
  UncompressResponse rb = false →
  (∀ cb tr, circuitBreaker rb = Some cb → (Allow cb tr).2 = None) →
  answers_always env (DoOk h) →
  BodyErr h = None →
  StatusCode h ≠ StatusNotModified →
  header_get (canon env) (RespHeader h) "Cache-Control" = "max-age=" +:+ pretty n +:+ rest →
  match rest with String c _ => is_digit c = false | EmptyString => True end →
  (0 < n) → (n * Second ≤ maxInt64) →
  (∀ tr tr', now env tr' < now env tr + n * Second) →
  DoRequest env fuel rb verb reqURL reqBody opts w = Some (o, rb1, w1) →
  (count_events is_network (trace w) < count_events is_network (trace w1))%nat →
  o = Returned (Some (new_addr w))
  ∧ ∃ w2 evs,
      DoRequest env fuel2 rb1 verb reqURL reqBody2 opts2 w1
      = Some (Returned (Some (new_addr w)), rb1, w2)
      ∧ trace w2 = (trace w1 ++ evs)%list
      ∧ count_events is_network evs = 0%nat.
Proof.
  intros He Hv Hunc Hadmit Hr Hbody Hstatus Hcc Hrest Hn Hmax Hclock H Hnet.
  apply DoRequest_reached_network in H
    as (after & cr & w0 & w1' & body & u & r & w2' & o1 & w3
        & Hh0 & Hc0 & Hl & Hnew & Hc1 & Ha & Hh2 & Hc2 & Hf & Hc); [|done].
  rewrite He in Ha.
  pose proof (attempts_spec _ _ _ _ _ _ _ _ _ _ _ _ _ _ Ha) as [Hk _].
  apply (attempts_answer _ (DoOk h)) in Ha as ->; [|done].
  apply cacheLookup_entry_state in Hl as (_ & _ & _ & Hentry); [|done..].
  specialize (Hentry eq_refl). rewrite Hnew in Hentry.
  set (url := BaseURL rb +:+ reqURL) in *. set (result := new_addr w) in *.
  (* the Response that [finish] builds *)
  unfold finish in Hf. rewrite Hbody in Hf.
  assert ((StatusCode h =? StatusNotModified) = false) as Hne by by apply Z.eqb_neq.
  rewrite Hne, andb_false_r in Hf.
  unfold readBody in Hf. rewrite (kept_UncompressResponse _ _ Hk), Hunc in Hf.
  simpl negb in Hf. cbv iota in Hf.
  set (res0 := set_byteBody (Body h) (set_Resp h zeroResponse)) in Hf.
  rewrite (setTTL_max_age_header env (trace w2') res0 n rest) in Hf; [|done|done|done|by left].
  destruct (setLastModified _ _) as [l res2] eqn:H2.
  destruct (setETag _ _) as [e res3] eqn:H3.
  assert (Resp res3 = Some h ∧ Err res3 = None ∧ revalidate res3 = false
          ∧ ttl res3 = Some (now env (trace w2') + n * Second)) as (R1 & R2 & R3 & R4).
  { revert H2. unfold setLastModified. destruct (parseHTTPDate _ _); intros [= <- <-];
      revert H3; unfold setETag; cbv zeta; intros [= <- <-]; done. }
  rewrite (kept_EnableCache _ _ Hk), He, Hv in Hf. simpl in Hf.
  injection Hf as <- <-.
  (* the cache after the first call *)
  set (wa := emit (EvCacheSetNX url result) (store result res3 w2')) in *.
  assert (resourceCache (resourceCache_setNX url result wa) !! url = Some result) as Hcache.
  { rewrite resourceCache_setNX_inserts; [apply lookup_insert_eq|].
    subst wa. simpl. rewrite Hc2. destruct (resourceCache w1' !! url) as [q|]; [|done].
    destruct Hentry as [Hq Hst]. unfold stale in *. simpl.
    rewrite lookup_insert_ne by done. by rewrite Hh2. }
  assert (heap (resourceCache_setNX url result wa) !! result = Some res3) as Hheap.
  { destruct (resourceCache_setNX_frame url result wa) as (_ & -> & _).
    subst wa. simpl. apply lookup_insert_eq. }
  assert (o = Returned (Some result)
          ∧ heap w1 = heap (resourceCache_setNX url result wa)
          ∧ resourceCache w1 = resourceCache (resourceCache_setNX url result wa))
    as (-> & Hh1 & Hcc1).
  { revert Hc. unfold complete. destruct after as [cb|]; [|by intros [= <- <-]].
    simpl. rewrite Hheap. simpl. unfold success_of. rewrite R2, R1. by intros [= <- <-]. }
  split; [done|].
  destruct (DoRequest_serves_fresh env fuel2 rb1 verb reqURL reqBody2 opts2 w1 result res3)
    as (w2 & evs & Hd & _ & _ & Ht & Hcount).
  - by rewrite (kept_EnableCache _ _ Hk).
  - done.
  - rewrite (kept_BaseURL _ _ Hk). fold url. by rewrite Hcc1.
  - by rewrite Hh1.
  - done.
  - intros tr. unfold expired. rewrite R4. apply Z.leb_gt. apply Hclock.
  - unfold success_of. rewrite R2, R1. by eexists.
  - intros cb Hcb. apply Hadmit. by rewrite <- (kept_circuitBreaker _ _ Hk).
  - by exists w2, evs.
Qed.
End round_trip.

Lemma DoRequest_cached_then_served_witness :
  ∃ o rb1 w1,
    DoRequest
      (Sample.with_server
         (λ _ _, DoOk (mkHttpResponse 200 {["Cache-Control" := ["max-age=100"]]}
                         ["o"%char; "k"%char] None)) Sample.env) 1
      Sample.rb0 "GET" "/x" None [] Sample.w0 = Some (o, rb1, w1)
    ∧ o = Returned (Some (new_addr Sample.w0))
    ∧ ∃ w2 evs,
        DoRequest
          (Sample.with_server
             (λ _ _, DoOk (mkHttpResponse 200 {["Cache-Control" := ["max-age=100"]]}
                             ["o"%char; "k"%char] None)) Sample.env) 0
          rb1 "GET" "/x" None [] w1 = Some (Returned (Some (new_addr Sample.w0)), rb1, w2)
        ∧ trace w2 = (trace w1 ++ evs)%list
        ∧ count_events is_network evs = 0%nat.
Proof.
  destruct (DoRequest
              (Sample.with_server
                 (λ _ _, DoOk (mkHttpResponse 200 {["Cache-Control" := ["max-age=100"]]}
                                 ["o"%char; "k"%char] None)) Sample.env) 1
              Sample.rb0 "GET" "/x" None [] Sample.w0) as [[[o rb1] w1]|] eqn:H.
  - exists o, rb1, w1. split; [reflexivity|].
    apply (DoRequest_cached_then_served
             (Sample.with_server
                (λ _ _, DoOk (mkHttpResponse 200 {["Cache-Control" := ["max-age=100"]]}
                                ["o"%char; "k"%char] None)) Sample.env)
             1 0 Sample.rb0 "GET" "/x" None None [] [] Sample.w0
             (mkHttpResponse 200 {["Cache-Control" := ["max-age=100"]]}
                ["o"%char; "k"%char] None) 100 "" o rb1 w1).
    + reflexivity.
    + reflexivity.
    + reflexivity.
    + intros cb tr Hcb. discriminate Hcb.
    + intros tr req. reflexivity.
    + reflexivity.
    + discriminate.
    + vm_compute. reflexivity.
    + exact I.
    + reflexivity.
    + vm_compute. discriminate.
    + intros tr tr'. vm_compute. reflexivity.
    + exact H.
    + vm_compute in H. injection H as <- <- <-. vm_compute. lia.
  - vm_compute in H. discriminate H.
Defined.
